(** * Forti-audit: the policy-audit engine of [PolicyCheck.py]

    A shallow embedding of the class [FortigateAuditor] and of the Python
    built-ins it relies on, followed by the properties of the classifiers,
    of the recommendation synthesizer and of the report assembler.

    Conventions of the embedding.
    - Python [str] values are [string]s; a text outside ASCII is the
      sequence of its UTF-8 bytes.  Case mapping, white space, the digit
      class and the escapes of [repr] are those of the code points below
      128, and bytes of 128 or more are carried through unchanged.  On
      ASCII text these are the operations of Python; the statements that
      depend on white space, on the digit class or on [repr] are made for
      ASCII text ([is_ascii], [ascii_value], [ascii_field]).
    - A JSON field value is [None], a boolean, an integer, a string, or a
      list of such scalars ([value]).  A policy is a Python [dict], embedded
      as a [gmap string value]; [policy.get(k, d)] is [get].
    - Python object attributes that may be unset are [option] fields.
    - [print] appends a line to an explicit output log; exceptions are the
      left summand of the monad [M]. *)

From Stdlib Require Import ZArith QArith Qround Qpower Qabs Lqa Ascii
  DecimalString DecimalPos DecimalZ.
From stdpp Require Import gmap strings list fin_maps sorting.

(** ** Text primitives *)

Module Text.

Definition code (c : ascii) : nat := nat_of_ascii c.

(** [c.isdigit()] on the ASCII range, as used by the regex class [\d]. *)
Definition is_digit (c : ascii) : bool :=
  (48 <=? code c) && (code c <=? 57).

(** White space removed by [str.strip()] with no argument, ASCII range:
    TAB, LF, VT, FF, CR, the separators FS GS RS US, and SPACE. *)
Definition is_space (c : ascii) : bool :=
  ((9 <=? code c) && (code c <=? 13))
  || ((28 <=? code c) && (code c <=? 31))
  || (code c =? 32).

Definition upper_char (c : ascii) : ascii :=
  if (97 <=? code c) && (code c <=? 122)
  then ascii_of_nat (code c - 32) else c.

Definition lower_char (c : ascii) : ascii :=
  if (65 <=? code c) && (code c <=? 90)
  then ascii_of_nat (code c + 32) else c.

Fixpoint map_chars (f : ascii → ascii) (s : string) : string :=
  match s with
  | EmptyString => EmptyString
  | String c s' => String (f c) (map_chars f s')
  end.

(** [s.upper()] and [s.lower()]. *)
Definition upper : string → string := map_chars upper_char.
Definition lower : string → string := map_chars lower_char.

(** [s.lstrip()]. *)
Fixpoint lstrip (s : string) : string :=
  match s with
  | EmptyString => EmptyString
  | String c s' => if is_space c then lstrip s' else s
  end.

(** [s.rstrip()]: a suffix made of white space only is dropped. *)
Fixpoint rstrip (s : string) : string :=
  match s with
  | EmptyString => EmptyString
  | String c s' =>
      match rstrip s' with
      | EmptyString => if is_space c then EmptyString else String c EmptyString
      | r => String c r
      end
  end.

(** [s.strip()]. *)
Definition strip (s : string) : string := rstrip (lstrip s).

(** [s.startswith(p)]. *)
Fixpoint starts_with (p s : string) : bool :=
  match p, s with
  | EmptyString, _ => true
  | String a p', String b s' => if ascii_dec a b then starts_with p' s' else false
  | String _ _, EmptyString => false
  end.

(** [needle in hay] on strings: [needle] occurs at some offset of [hay]. *)
Fixpoint contains (needle hay : string) : bool :=
  starts_with needle hay ||
  match hay with
  | EmptyString => false
  | String _ hay' => contains needle hay'
  end.

(** [sep.join(parts)]. *)
Fixpoint join (sep : string) (parts : list string) : string :=
  match parts with
  | [] => ""
  | [p] => p
  | p :: rest => p +:+ sep +:+ join sep rest
  end.

(** [str(n)] for an integer: decimal digits, a minus sign when negative. *)
Definition of_Z (z : Z) : string := NilZero.string_of_int (Z.to_int z).
Definition of_nat (n : nat) : string := of_Z (Z.of_nat n).

Definition hex_digit (n : nat) : ascii :=
  if n <? 10 then ascii_of_nat (48 + n) else ascii_of_nat (87 + n).

(** One character of [repr(s)], for the quote character [q]. *)
Definition repr_char (q c : ascii) : string :=
  if ascii_dec c q then String "\"%char (String c "")
  else if ascii_dec c "\"%char then "\\"
  else if code c =? 9 then "\t"
  else if code c =? 10 then "\n"
  else if code c =? 13 then "\r"
  else if (code c <? 32) || (code c =? 127)
  then String "\"%char (String "x"%char (String (hex_digit (code c / 16))
                                      (String (hex_digit (code c mod 16)) "")))
  else String c "".

Fixpoint repr_body (q : ascii) (s : string) : string :=
  match s with
  | EmptyString => EmptyString
  | String c s' => repr_char q c +:+ repr_body q s'
  end.

(** [repr(s)] for a string: single quotes, unless the string holds a
    single quote and no double quote. *)
Definition repr (s : string) : string :=
  let dq : ascii := ascii_of_nat 34 in
  let q : ascii :=
    if contains "'" s && negb (contains (String dq "") s)
    then dq else "'"%char in
  String q (repr_body q s) +:+ String q "".

End Text.

(** ** Binary64 floating point

    Python [float] is IEEE 754 binary64 with round-to-nearest, ties to even.
    A non-negative float is represented by the rational it denotes (kept
    reduced) or by [PosInf]; the program never builds a negative one. *)

Module Binary64.

Local Open Scope Q_scope.

Inductive float :=
  | Finite (q : Q)
  | PosInf.

Definition zero : float := Finite 0.

(** [x == 0]. *)
Definition is_zero (x : float) : bool :=
  match x with
  | Finite q => Qeq_bool q 0
  | PosInf => false
  end.

(** Nearest integer, ties to the even one. *)
Definition round_half_even (q : Q) : Z :=
  let f := Qfloor q in
  match (q - inject_Z f) ?= (1 # 2) with
  | Lt => f
  | Gt => (f + 1)%Z
  | Eq => if Z.even f then f else (f + 1)%Z
  end%Q.

Definition pow2 (e : Z) : Q := Qpower 2 e.
Definition pow10 (e : Z) : Q := Qpower 10 e.

(** [floor (log2 q)] for [0 < q]. *)
Definition ilog2 (q : Q) : Z :=
  let k := (Z.log2 (Qnum q) - Z.log2 (Zpos (Qden q)))%Z in
  if Qle_bool (pow2 k) q then k else (k - 1)%Z.

(** Rounding of a non-negative real to binary64: 53 significant bits,
    least exponent [-1074] (subnormals, underflow to zero), overflow to
    infinity from [2^1024] on. *)
Definition round64 (q : Q) : float :=
  if Qle_bool q 0 then zero
  else
    let e := Z.max (ilog2 q - 52) (-1074) in
    let m := round_half_even (q / pow2 e) in
    let v := inject_Z m * pow2 e in
    if Qle_bool (pow2 1024) v then PosInf else Finite (Qred v).

(** [a / b] on integers ([b] is not zero) and [x * n] for an integer [n]. *)
Definition truediv (a b : Z) : float := round64 (inject_Z a / inject_Z b).

Definition mul_int (x : float) (n : Z) : float :=
  match x with
  | Finite q => round64 (q * inject_Z n)
  | PosInf => PosInf
  end.

(** [round(x, ndigits)] for [0 <= ndigits]: the exact value of [x] is
    rounded to [ndigits] decimals, ties to even, and converted back. *)
Definition round_ndigits (x : float) (ndigits : Z) : float :=
  match x with
  | Finite q =>
      round64 (inject_Z (round_half_even (q * pow10 ndigits)) / pow10 ndigits)
  | PosInf => PosInf
  end.

(** *** [repr] of a float: the shortest decimal that reads back *)

Definition ndigits (z : Z) : Z := Z.of_nat (String.length (Text.of_Z z)).

(** [floor (log10 q)] for [0 < q]. *)
Definition ilog10 (q : Q) : Z :=
  let k := (ndigits (Qnum q) - ndigits (Zpos (Qden q)))%Z in
  if Qle_bool (pow10 k) q then k else (k - 1)%Z.

Definition reads_back (q : Q) (m e : Z) : bool :=
  match round64 (inject_Z m * pow10 e) with
  | Finite v => Qeq_bool v q
  | PosInf => false
  end.

(** The decimal [m * 10^e] with at most [n] significant digits that reads
    back as [q], the nearest to [q] if both neighbours do. *)
Definition candidate (q : Q) (n : Z) : option (Z * Z) :=
  let e := (ilog10 q - (n - 1))%Z in
  let lo := Qfloor (q / pow10 e) in
  let hi := (lo + 1)%Z in
  match reads_back q lo e, reads_back q hi e with
  | true, true =>
      match (q - inject_Z lo * pow10 e) ?= (inject_Z hi * pow10 e - q) with
      | Lt => Some (lo, e)
      | Gt => Some (hi, e)
      | Eq => Some (if Z.even lo then lo else hi, e)
      end
  | true, false => Some (lo, e)
  | false, true => Some (hi, e)
  | false, false => None
  end.

Fixpoint shortest (q : Q) (fuel : nat) (n : Z) : Z * Z :=
  match fuel with
  | O => (round_half_even (q / pow10 (ilog10 q - 16)), (ilog10 q - 16)%Z)
  | S fuel' =>
      match candidate q n with
      | Some r => r
      | None => shortest q fuel' (n + 1)%Z
      end
  end.

Fixpoint strip_zeros (s : string) : string :=
  match s with
  | EmptyString => EmptyString
  | String c s' =>
      match strip_zeros s' with
      | EmptyString => if Ascii.eqb c "0" then EmptyString else String c EmptyString
      | r => String c r
      end
  end.

Fixpoint zeros (n : nat) : string :=
  match n with O => EmptyString | S n' => String "0" (zeros n') end.

Definition take (n : nat) (s : string) : string := String.substring 0 n s.
Definition drop (n : nat) (s : string) : string :=
  String.substring n (String.length s - n) s.

(** Digits [ds] with the decimal point after the first [decpt] of them:
    positional notation for [-4 < decpt <= 16], else with an exponent of
    at least two digits. *)
Definition format (ds : string) (decpt : Z) : string :=
  let len := Z.of_nat (String.length ds) in
  if ((-4 <? decpt) && (decpt <=? 16))%Z then
    if (decpt <=? 0)%Z then "0." +:+ zeros (Z.to_nat (- decpt)) +:+ ds
    else if (len <=? decpt)%Z then ds +:+ zeros (Z.to_nat (decpt - len)) +:+ ".0"
    else take (Z.to_nat decpt) ds +:+ "." +:+ drop (Z.to_nat decpt) ds
  else
    let x := (decpt - 1)%Z in
    let mant :=
      if (len <=? 1)%Z then ds else take 1 ds +:+ "." +:+ drop 1 ds in
    let xs := Text.of_Z (Z.abs x) in
    mant +:+ "e" +:+ (if (x <? 0)%Z then "-" else "+")
         +:+ (if (Z.abs x <? 10)%Z then "0" else "") +:+ xs.

(** [repr(x)], which is also [str(x)] and the rendering in an f-string. *)
Definition repr (x : float) : string :=
  match x with
  | PosInf => "inf"
  | Finite q =>
      if Qle_bool q 0 then "0.0"
      else
        let '(m, e) := shortest q 17 1 in
        let all := Text.of_Z m in
        format (strip_zeros all) (Z.of_nat (String.length all) + e)
  end.

End Binary64.

(** ** Field values and policies *)

(** A scalar of the parsed JSON document. *)
Inductive scalar :=
  | SNone
  | SBool (b : bool)
  | SInt (z : Z)
  | SStr (s : string).

(** A field value: a scalar or a list of scalars. *)
Inductive value :=
  | VScalar (x : scalar)
  | VList (xs : list scalar).

Coercion VScalar : scalar >-> value.

#[global] Instance scalar_eq_dec : EqDecision scalar.
Proof. solve_decision. Defined.

#[global] Instance value_eq_dec : EqDecision value.
Proof. solve_decision. Defined.

(** Python truth value, as tested by [if value] and [not value]. *)
Definition scalar_truthy (x : scalar) : bool :=
  match x with
  | SNone => false
  | SBool b => b
  | SInt z => negb (z =? 0)%Z
  | SStr s => negb (String.eqb s "")
  end.

Definition truthy (v : value) : bool :=
  match v with
  | VScalar x => scalar_truthy x
  | VList xs => negb (bool_decide (xs = []))
  end.

(** [str(x)] and [repr(x)] of a scalar. *)
Definition scalar_str (x : scalar) : string :=
  match x with
  | SNone => "None"
  | SBool true => "True"
  | SBool false => "False"
  | SInt z => Text.of_Z z
  | SStr s => s
  end.

Definition scalar_repr (x : scalar) : string :=
  match x with
  | SStr s => Text.repr s
  | _ => scalar_str x
  end.

(** [str(v)]: a list prints the [repr] of its elements between brackets. *)
Definition py_str (v : value) : string :=
  match v with
  | VScalar x => scalar_str x
  | VList xs => "[" +:+ Text.join ", " (scalar_repr <$> xs) +:+ "]"
  end.

(** One rule record of the input: a Python [dict]. *)
Abbreviation policy := (gmap string value).

(** [policy.get(key, default)]. *)
Definition get (p : policy) (key : string) (dflt : value) : value :=
  default dflt (p !! key).

(** ** Field normalizer *)

(** [_safe_string]:
<<
    if isinstance(value, list):
        return ', '.join(str(v) for v in value)
    return str(value) if value else ''
>> *)
Definition _safe_string (v : value) : string :=
  match v with
  | VList xs => Text.join ", " (scalar_str <$> xs)
  | VScalar x => if scalar_truthy x then scalar_str x else ""
  end.

(** ** Numeric extractor *)

(** The value returned by [_extract_bytes_value]: the integer literal [0]
    or a float. *)
Inductive number :=
  | NInt (z : Z)
  | NFloat (x : Binary64.float).

(** [n == 0]. *)
Definition number_is_zero (n : number) : bool :=
  match n with
  | NInt z => (z =? 0)%Z
  | NFloat x => Binary64.is_zero x
  end.

(** The longest prefix of digits, and what follows it (greedy [\d+]). *)
Fixpoint span_digits (s : string) : string * string :=
  match s with
  | EmptyString => (EmptyString, EmptyString)
  | String c s' =>
      if Text.is_digit c
      then let '(ds, rest) := span_digits s' in (String c ds, rest)
      else (EmptyString, s)
  end.

(** A match of [\d+(?:\.\d+)?] anchored at the head of [s]: the matched
    text, if any. *)
Definition match_number (s : string) : option string :=
  match span_digits s with
  | (EmptyString, _) => None
  | (ip, String "." rest) =>
      match span_digits rest with
      | (EmptyString, _) => Some ip
      | (fp, _) => Some (ip +:+ "." +:+ fp)
      end
  | (ip, _) => Some ip
  end.

(** [re.search(r'(\d+(?:\.\d+)?)', s)]: the leftmost match, [group(1)]. *)
Fixpoint re_search_number (s : string) : option string :=
  match s with
  | EmptyString => None
  | String c s' =>
      if Text.is_digit c then match_number s else re_search_number s'
  end.

Fixpoint digits_value (acc : Z) (ds : string) : Z :=
  match ds with
  | EmptyString => acc
  | String c ds' => digits_value (10 * acc + Z.of_nat (Text.code c - 48)) ds'
  end.

(** [float(text)] for a text of the shape [digits] or [digits.digits]. *)
Definition float_of_text (text : string) : Binary64.float :=
  let '(ip, rest) := span_digits text in
  let fp := match rest with
            | String "." rest' => fst (span_digits rest')
            | _ => EmptyString
            end in
  Binary64.round64
    (inject_Z (digits_value 0 (ip +:+ fp))
     / Binary64.pow10 (Z.of_nat (String.length fp)))%Q.

(** [_extract_bytes_value]:
<<
    if not bytes_str or bytes_str == "0 B":
        return 0
    match = re.search(r'(\d+(?:\.\d+)?)', str(bytes_str))
    return float(match.group(1)) if match else 0
>> *)
Definition _extract_bytes_value (bytes_str : value) : number :=
  if negb (truthy bytes_str) || bool_decide (bytes_str = VScalar (SStr "0 B"))
  then NInt 0
  else
    match re_search_number (py_str bytes_str) with
    | Some text => NFloat (float_of_text text)
    | None => NInt 0
    end.

(** ** Findings *)

(** An entry of [unused_rules]. *)
Record unused_finding := {
  u_id : nat;
  u_name : string;
  u_action : string;
  u_bytes : string;
  u_source : string;
  u_destination : string;
  u_service : string;
}.

(** An entry of [all_all_rules] or [single_all_rules] ([rule_info]). *)
Record permissive_finding := {
  p_id : nat;
  p_name : string;
  p_source : string;
  p_destination : string;
  p_service : string;
  p_src_any : bool;
  p_dst_any : bool;
  p_srv_any : bool;
  p_risk_level : string;
}.

(** A member of a duplicate group, and a group of [duplicate_rules]. *)
Record duplicate_member := {
  d_id : nat;
  d_name : string;
  d_bytes : string;
}.

Record duplicate_group := {
  g_signature : string;
  g_rules : list duplicate_member;
  g_count : nat;
}.

(** An entry of [no_logging] or [with_logging] ([rule_info]). *)
Record logging_finding := {
  l_id : nat;
  l_name : string;
  l_log_setting : string;
  l_action : string;
  l_bytes : string;
}.

(** The value stored under the key ['logging']. *)
Record logging_result := {
  no_logging : list logging_finding;
  with_logging : list logging_finding;
}.

(** ** Classifiers: the loops over [enumerate(self.policies)] *)

(** [enumerate(l)]: each element with its 0-based index. *)
Definition enumerate {A} (l : list A) : list (nat * A) := imap pair l.

(** [x in l] for a list of strings. *)
Definition str_in (x : string) (l : list string) : bool := bool_decide (x ∈ l).

(** [self._safe_string(policy.get('Policy', f'Rule_{i+1}'))]. *)
Definition rule_name (i : nat) (p : policy) : string :=
  _safe_string (get p "Policy" (SStr ("Rule_" +:+ Text.of_nat (i + 1)))).

(** [self._safe_string(policy.get('Action', '')).upper()]. *)
Definition action_upper (p : policy) : string :=
  Text.upper (_safe_string (get p "Action" (SStr ""))).

(** *** Unused rules *)

Definition unused_info (i : nat) (p : policy) : unused_finding :=
  {| u_id := i + 1;
     u_name := rule_name i p;
     u_action := action_upper p;
     u_bytes := _safe_string (get p "Bytes" (SStr "0 B"));
     u_source := _safe_string (get p "Source" (SStr ""));
     u_destination := _safe_string (get p "Destination" (SStr ""));
     u_service := _safe_string (get p "Service" (SStr "")) |}.

(** The test [bytes_value == 0 and action == 'ACCEPT']. *)
Definition is_unused (p : policy) : bool :=
  let bytes_value := _extract_bytes_value (get p "Bytes" (SStr "0 B")) in
  let action := action_upper p in
  number_is_zero bytes_value && String.eqb action "ACCEPT".

Definition unused_step (unused_rules : list unused_finding) (ip : nat * policy)
  : list unused_finding :=
  let '(i, policy) := ip in
  if is_unused policy then unused_rules ++ [unused_info i policy]
  else unused_rules.

(** The loop of [audit_unused_rules]. *)
Definition unused_rules_of (policies : list policy) : list unused_finding :=
  foldl unused_step [] (enumerate policies).

(** *** Permissive rules *)

(** [source in ['all', 'any', ''] or 'any' in source or 'all' in source],
    on the lower-cased normalized field. *)
Definition src_any (p : policy) : bool :=
  let source := Text.lower (_safe_string (get p "Source" (SStr ""))) in
  str_in source ["all"; "any"; ""]
  || Text.contains "any" source || Text.contains "all" source.

Definition dst_any (p : policy) : bool :=
  let destination := Text.lower (_safe_string (get p "Destination" (SStr ""))) in
  str_in destination ["all"; "any"; ""]
  || Text.contains "any" destination || Text.contains "all" destination.

Definition srv_any (p : policy) : bool :=
  let service := Text.lower (_safe_string (get p "Service" (SStr ""))) in
  str_in service ["all"; "any"; ""]
  || Text.contains "all" service || Text.contains "any" service.

Definition permissive_info (i : nat) (p : policy) (risk_level : string)
  : permissive_finding :=
  {| p_id := i + 1;
     p_name := rule_name i p;
     p_source := _safe_string (get p "Source" (SStr ""));
     p_destination := _safe_string (get p "Destination" (SStr ""));
     p_service := _safe_string (get p "Service" (SStr ""));
     p_src_any := src_any p;
     p_dst_any := dst_any p;
     p_srv_any := srv_any p;
     p_risk_level := risk_level |}.

(** The test [action == 'ACCEPT' and (src_any or dst_any or srv_any)]. *)
Definition is_permissive (p : policy) : bool :=
  String.eqb (action_upper p) "ACCEPT" && (src_any p || dst_any p || srv_any p).

(** The test [src_any and dst_any and srv_any]. *)
Definition is_all_all (p : policy) : bool :=
  src_any p && dst_any p && srv_any p.

(** One iteration: the pair is ([all_all_rules], [single_all_rules]). *)
Definition permissive_step
    (acc : list permissive_finding * list permissive_finding)
    (ip : nat * policy)
  : list permissive_finding * list permissive_finding :=
  let '(all_all_rules, single_all_rules) := acc in
  let '(i, policy) := ip in
  if is_permissive policy then
    if is_all_all policy
    then (all_all_rules ++ [permissive_info i policy "CRITICAL"], single_all_rules)
    else (all_all_rules, single_all_rules ++ [permissive_info i policy "HIGH"])
  else acc.

(** The loop of [audit_permissive_rules]. *)
Definition permissive_rules_of (policies : list policy)
  : list permissive_finding * list permissive_finding :=
  foldl permissive_step ([], []) (enumerate policies).

(** *** Logging *)

(** [self._safe_string(policy.get('Log', '')).strip().lower()]. *)
Definition log_setting_of (p : policy) : string :=
  Text.lower (Text.strip (_safe_string (get p "Log" (SStr "")))).

Definition logging_info (i : nat) (p : policy) : logging_finding :=
  {| l_id := i + 1;
     l_name := rule_name i p;
     l_log_setting := _safe_string (get p "Log" (SStr ""));
     l_action := _safe_string (get p "Action" (SStr ""));
     l_bytes := _safe_string (get p "Bytes" (SStr "0 B")) |}.

(** The test [log_setting in ['', 'none', 'disable']]. *)
Definition is_no_logging (p : policy) : bool :=
  str_in (log_setting_of p) [""; "none"; "disable"].

Definition logging_step (acc : logging_result) (ip : nat * policy)
  : logging_result :=
  let '(i, policy) := ip in
  if is_no_logging policy
  then {| no_logging := no_logging acc ++ [logging_info i policy];
          with_logging := with_logging acc |}
  else {| no_logging := no_logging acc;
          with_logging := with_logging acc ++ [logging_info i policy] |}.

(** The loop of [audit_logging]. *)
Definition logging_of (policies : list policy) : logging_result :=
  foldl logging_step {| no_logging := []; with_logging := [] |}
        (enumerate policies).

(** *** Duplicate rules *)

(** [rule_signatures], a [defaultdict(list)]: keys in insertion order. *)
Abbreviation signature_table := (list (string * list duplicate_member)).

(** [rule_signatures[signature].append(member)]: appended to the list of an
    existing key, or stored under a new last key. *)
Fixpoint table_append (signature : string) (member : duplicate_member)
    (t : signature_table) : signature_table :=
  match t with
  | [] => [(signature, [member])]
  | (k, rules) :: t' =>
      if String.eqb k signature
      then (k, rules ++ [member]) :: t'
      else (k, rules) :: table_append signature member t'
  end.

(** The f-string
    [f"{source}|{destination}|{service}|{interface_pair}|{action}"]. *)
Definition signature_of (p : policy) : string :=
  let action := action_upper p in
  let source := Text.strip (_safe_string (get p "Source" (SStr ""))) in
  let destination := Text.strip (_safe_string (get p "Destination" (SStr ""))) in
  let service := Text.strip (_safe_string (get p "Service" (SStr ""))) in
  let interface_pair :=
    Text.strip (_safe_string (get p "Interface Pair" (SStr ""))) in
  source +:+ "|" +:+ destination +:+ "|" +:+ service +:+ "|"
         +:+ interface_pair +:+ "|" +:+ action.

Definition duplicate_info (i : nat) (p : policy) : duplicate_member :=
  {| d_id := i + 1;
     d_name := rule_name i p;
     d_bytes := _safe_string (get p "Bytes" (SStr "0 B")) |}.

(** The test that is the negation of [action != 'ACCEPT']. *)
Definition is_accept (p : policy) : bool := String.eqb (action_upper p) "ACCEPT".

Definition signature_step (rule_signatures : signature_table)
    (ip : nat * policy) : signature_table :=
  let '(i, policy) := ip in
  if negb (is_accept policy) then rule_signatures
  else table_append (signature_of policy) (duplicate_info i policy)
                    rule_signatures.

(** The first loop of [audit_duplicate_rules]. *)
Definition rule_signatures_of (policies : list policy) : signature_table :=
  foldl signature_step [] (enumerate policies).

Definition duplicates_step (duplicates : list duplicate_group)
    (item : string * list duplicate_member) : list duplicate_group :=
  let '(signature, rules) := item in
  if 1 <? length rules
  then duplicates ++ [{| g_signature := signature;
                         g_rules := rules;
                         g_count := length rules |}]
  else duplicates.

(** Both loops of [audit_duplicate_rules]. *)
Definition duplicate_rules_of (policies : list policy) : list duplicate_group :=
  foldl duplicates_step [] (rule_signatures_of policies).

(** ** The results map *)

(** [self.results]: a [dict] with the keys ['unused_rules'],
    ['all_all_rules'], ['single_all_rules'], ['duplicate_rules'] and
    ['logging']; a key that has not been stored yet is [None]. *)
Record Results := {
  r_unused_rules : option (list unused_finding);
  r_all_all_rules : option (list permissive_finding);
  r_single_all_rules : option (list permissive_finding);
  r_duplicate_rules : option (list duplicate_group);
  r_logging : option logging_result;
}.

(** [{}]. *)
Definition empty_results : Results :=
  {| r_unused_rules := None; r_all_all_rules := None;
     r_single_all_rules := None; r_duplicate_rules := None;
     r_logging := None |}.

(** ** Recommendation synthesizer *)

Record recommendation := {
  priority : string;
  category : string;
  issue : string;
  count : nat;
  action : string;
}.

(** [recommendations.append(r)] when [cond] holds. *)
Definition append_if {A} (cond : bool) (x : A) (l : list A) : list A :=
  if cond then l ++ [x] else l.

(** Truth value of [self.results.get(key)] for a list-valued key. *)
Definition list_truthy {A} (o : option (list A)) : bool :=
  match o with
  | Some (_ :: _) => true
  | _ => false
  end.

(** [len(self.results[key])], computed only where [list_truthy] holds. *)
Definition list_len {A} (o : option (list A)) : nat := length (default [] o).

(** [len(self.results.get('logging', {}).get('no_logging', []))]. *)
Definition no_logging_len (r : Results) : nat :=
  match r_logging r with
  | Some lg => length (no_logging lg)
  | None => 0
  end.

(** [_generate_recommendations], on the results map. *)
Definition _generate_recommendations (r : Results) : list recommendation :=
  let recommendations := [] in
  let recommendations :=
    append_if (list_truthy (r_unused_rules r))
      {| priority := "HIGH"; category := "Cleanup";
         issue := "Unused ACCEPT rules";
         count := list_len (r_unused_rules r);
         action := "Remove or disable these rules to reduce attack surface" |}
      recommendations in
  let recommendations :=
    append_if (list_truthy (r_all_all_rules r))
      {| priority := "CRITICAL"; category := "Security";
         issue := "Rules with ALL ALL configuration";
         count := list_len (r_all_all_rules r);
         action := "URGENT: Restrict source, destination and services - these rules allow everything" |}
      recommendations in
  let recommendations :=
    append_if (list_truthy (r_single_all_rules r))
      {| priority := "HIGH"; category := "Security";
         issue := "Rules with single ALL configuration";
         count := list_len (r_single_all_rules r);
         action := "Restrict sources, destinations and services according to least privilege principle" |}
      recommendations in
  let recommendations :=
    append_if (list_truthy (r_duplicate_rules r))
      {| priority := "MEDIUM"; category := "Optimization";
         issue := "Duplicate rules";
         count := list_len (r_duplicate_rules r);
         action := "Consolidate or remove redundant rules" |}
      recommendations in
  let no_logging := no_logging_len r in
  let recommendations :=
    append_if (0 <? no_logging)
      {| priority := "MEDIUM"; category := "Monitoring";
         issue := "Rules without logging";
         count := no_logging;
         action := "Enable logging for traceability and monitoring" |}
      recommendations in
  recommendations.

(** ** The report *)

Record audit_info := {
  date : string;
  total_rules : nat;
}.

Record summary := {
  total_rules_analyzed : nat;
  all_all_rules_count : nat;
  all_all_rules_percent : string;
  single_all_rules_count : nat;
  single_all_rules_percent : string;
  duplicate_groups_count : nat;
  duplicate_groups_percent : string;
  unused_rules_count : nat;
  unused_rules_percent : string;
  rules_without_logging : nat;
  rules_without_logging_percent : string;
}.

Record detailed_results := {
  dr_unused_rules : list unused_finding;
  dr_all_all_rules : list permissive_finding;
  dr_single_all_rules : list permissive_finding;
  dr_duplicate_rules : list duplicate_group;
  dr_without_logging : list logging_finding;
}.

Record Report := {
  rp_audit_info : audit_info;
  rp_summary : summary;
  rp_detailed_results : detailed_results;
  rp_recommendations : list recommendation;
}.

(** ** The auditor object and its environment *)

(** The parsed input document: a bare list of policies, or an object whose
    keys hold lists of policies. *)
Inductive json_doc :=
  | JList (ps : list policy)
  | JDict (d : gmap string (list policy)).

Definition doc_truthy (d : json_doc) : bool :=
  match d with
  | JList ps => negb (bool_decide (ps = []))
  | JDict m => negb (bool_decide (m = ∅))
  end.

(** The attributes of a [FortigateAuditor]; [None] is an unset attribute. *)
Record Auditor := {
  a_data : option json_doc;
  a_policies : option (list policy);
  a_results : option Results;
}.

(** The object as [__init__] receives it. *)
Definition new_auditor : Auditor :=
  {| a_data := None; a_policies := None; a_results := None |}.

(** What a run reads and writes besides the object: the console, the clock
    ([datetime.now()] formatted), and the disk, which either accepts a
    written file or fails with a message. *)
Record World := {
  self : Auditor;
  stdout : list string;
  clock : string;
  disk_error : option string;
  disk : list (string * Report);
}.

Inductive exn :=
  | AttributeError (attr : string)
  | KeyError (key : string)
  | ZeroDivisionError.

(** State and exception monad of the methods. *)
Definition M (A : Type) : Type := World → (exn + A) * World.

#[global] Instance M_ret : MRet M := λ A x w, (inr x, w).

#[global] Instance M_bind : MBind M := λ A B f m w,
  match m w with
  | (inr x, w') => f x w'
  | (inl e, w') => (inl e, w')
  end.

Definition raise {A} (e : exn) : M A := λ w, (inl e, w).

Definition with_self (f : Auditor → Auditor) : M unit := λ w,
  (inr (), {| self := f (self w); stdout := stdout w; clock := clock w;
              disk_error := disk_error w; disk := disk w |}).

(** [print(line)]. *)
Definition print (line : string) : M unit := λ w,
  (inr (), {| self := self w; stdout := stdout w ++ [line]; clock := clock w;
              disk_error := disk_error w; disk := disk w |}).

(** [datetime.now().strftime('%Y-%m-%d %H:%M:%S')]. *)
Definition now : M string := λ w, (inr (clock w), w).

(** Reading an attribute of [self] raises [AttributeError] if it is unset. *)
Definition getattr {A} (proj : Auditor → option A) (attr : string) : M A := λ w,
  match proj (self w) with
  | Some x => (inr x, w)
  | None => (inl (AttributeError attr), w)
  end.

(** [hasattr(self, 'policies')]. *)
Definition hasattr_policies : M bool := λ w,
  (inr (bool_decide (is_Some (a_policies (self w)))), w).

Definition set_data (d : json_doc) : M unit :=
  with_self (λ a, {| a_data := Some d; a_policies := a_policies a;
                     a_results := a_results a |}).

Definition set_policies (ps : list policy) : M unit :=
  with_self (λ a, {| a_data := a_data a; a_policies := Some ps;
                     a_results := a_results a |}).

Definition set_results (r : Results) : M unit :=
  with_self (λ a, {| a_data := a_data a; a_policies := a_policies a;
                     a_results := Some r |}).

(** [self.results[key] = ...]: [self.results] is read, then updated. *)
Definition store (f : Results → Results) : M unit :=
  r ← getattr a_results "results"; set_results (f r).

(** [self.results[key]]: [KeyError] if the key has not been stored. *)
Definition item {A} (proj : Results → option A) (key : string) : M A :=
  r ← getattr a_results "results";
  match proj r with
  | Some x => mret x
  | None => raise (KeyError key)
  end.

(** ** The methods of [FortigateAuditor] *)

(** [__init__(self, json_file_path=None, json_data=None)]. *)
Definition __init__ (json_data : option json_doc) : M unit :=
  match json_data with
  | Some d => if doc_truthy d then set_data d else mret ()
  | None => mret ()
  end;;
  data ← getattr a_data "data";
  match data with
  | JList ps => set_policies ps
  | JDict m => set_policies (default (default [] (m !! "Policy")) (m !! "policies"))
  end;;
  policies ← getattr a_policies "policies";
  if bool_decide (policies = []) then
    print "ERROR: No policies found in JSON";;
    print "STOP - Invalid or empty JSON structure";;
    mret ()
  else
    set_results empty_results.

(** [audit_unused_rules]. *)
Definition audit_unused_rules : M (list unused_finding) :=
  policies ← getattr a_policies "policies";
  let unused_rules := unused_rules_of policies in
  store (λ r, {| r_unused_rules := Some unused_rules;
                 r_all_all_rules := r_all_all_rules r;
                 r_single_all_rules := r_single_all_rules r;
                 r_duplicate_rules := r_duplicate_rules r;
                 r_logging := r_logging r |});;
  mret unused_rules.

(** [audit_permissive_rules]. *)
Definition audit_permissive_rules
  : M (list permissive_finding * list permissive_finding) :=
  policies ← getattr a_policies "policies";
  let '(all_all_rules, single_all_rules) := permissive_rules_of policies in
  store (λ r, {| r_unused_rules := r_unused_rules r;
                 r_all_all_rules := Some all_all_rules;
                 r_single_all_rules := r_single_all_rules r;
                 r_duplicate_rules := r_duplicate_rules r;
                 r_logging := r_logging r |});;
  store (λ r, {| r_unused_rules := r_unused_rules r;
                 r_all_all_rules := r_all_all_rules r;
                 r_single_all_rules := Some single_all_rules;
                 r_duplicate_rules := r_duplicate_rules r;
                 r_logging := r_logging r |});;
  mret (all_all_rules, single_all_rules).

(** [audit_duplicate_rules]. *)
Definition audit_duplicate_rules : M (list duplicate_group) :=
  policies ← getattr a_policies "policies";
  let duplicates := duplicate_rules_of policies in
  store (λ r, {| r_unused_rules := r_unused_rules r;
                 r_all_all_rules := r_all_all_rules r;
                 r_single_all_rules := r_single_all_rules r;
                 r_duplicate_rules := Some duplicates;
                 r_logging := r_logging r |});;
  mret duplicates.

(** [audit_logging]. *)
Definition audit_logging : M logging_result :=
  policies ← getattr a_policies "policies";
  let logging := logging_of policies in
  store (λ r, {| r_unused_rules := r_unused_rules r;
                 r_all_all_rules := r_all_all_rules r;
                 r_single_all_rules := r_single_all_rules r;
                 r_duplicate_rules := r_duplicate_rules r;
                 r_logging := Some logging |});;
  item r_logging "logging".

(** [a / b] on integers raises [ZeroDivisionError] for [b = 0]. *)
Definition py_truediv (a b : Z) : M Binary64.float :=
  if (b =? 0)%Z then raise ZeroDivisionError else mret (Binary64.truediv a b).

(** The replacement field of an f-string, for a number. *)
Definition number_str (n : number) : string :=
  match n with
  | NInt z => Text.of_Z z
  | NFloat x => Binary64.repr x
  end.

(** [f"{round(n / total * 100, 2) if total > 0 else 0}%"]. *)
Definition percent (n total : nat) : M string :=
  v ← (if 0 <? total
       then q ← py_truediv (Z.of_nat n) (Z.of_nat total);
            mret (NFloat (Binary64.round_ndigits (Binary64.mul_int q 100) 2))
       else mret (NInt 0));
  mret (number_str v +:+ "%").

(** [json.dump(report, f)] into [open(output_file, 'w')], with the
    [try]/[except] around it. *)
Definition dump (output_file : string) (report : Report) : M (option string) :=
  λ w,
    match disk_error w with
    | None =>
        (print ("Audit saved in: " +:+ output_file);; mret (Some output_file))
          {| self := self w; stdout := stdout w; clock := clock w;
             disk_error := disk_error w;
             disk := disk w ++ [(output_file, report)] |}
    | Some e =>
        (print ("Error saving audit report: " +:+ e);; mret None) w
    end.

(** [generate_json_report]. *)
Definition generate_json_report (output_file : string) : M (option string) :=
  print "Generating JSON audit report...";;
  audit_unused_rules;;
  permissive_results ← audit_permissive_rules;
  audit_duplicate_rules;;
  audit_logging;;
  policies ← getattr a_policies "policies";
  let total := length policies in
  date ← now;
  all_all ← item r_all_all_rules "all_all_rules";
  all_all_percent ← percent (length all_all) total;
  single_all ← item r_single_all_rules "single_all_rules";
  single_all_percent ← percent (length single_all) total;
  duplicates ← item r_duplicate_rules "duplicate_rules";
  duplicates_percent ← percent (length duplicates) total;
  unused ← item r_unused_rules "unused_rules";
  unused_percent ← percent (length unused) total;
  logging ← item r_logging "logging";
  no_logging_percent ← percent (length (no_logging logging)) total;
  results ← getattr a_results "results";
  let report :=
    {| rp_audit_info := {| date := date; total_rules := total |};
       rp_summary :=
         {| total_rules_analyzed := total;
            all_all_rules_count := length all_all;
            all_all_rules_percent := all_all_percent;
            single_all_rules_count := length single_all;
            single_all_rules_percent := single_all_percent;
            duplicate_groups_count := length duplicates;
            duplicate_groups_percent := duplicates_percent;
            unused_rules_count := length unused;
            unused_rules_percent := unused_percent;
            rules_without_logging := length (no_logging logging);
            rules_without_logging_percent := no_logging_percent |};
       rp_detailed_results :=
         {| dr_unused_rules := unused;
            dr_all_all_rules := all_all;
            dr_single_all_rules := single_all;
            dr_duplicate_rules := duplicates;
            dr_without_logging := no_logging logging |};
       rp_recommendations := _generate_recommendations results |} in
  dump output_file report.

(** ** The entry point *)

Definition nl : string := String (ascii_of_nat 10) "".

(** [main], from the point where [load_json_from_file] has returned
    [user_data] ([None] when the file could not be read); the banner
    printed before that is left out. *)
Definition main (user_data : option json_doc) : M unit :=
  if negb (from_option doc_truthy false user_data) then
    print (nl +:+ "❗Fatal error: No JSON data or the JSON format is invalid. ❗​" +:+ nl)
  else
    __init__ user_data;;
    has_policies ← hasattr_policies;
    if negb has_policies then
      print "Failed to initialize auditor: invalid or incomplete JSON data."
    else
      print "Performing analysis on your actual data...";;
      output_file ← generate_json_report "firewall_audit_report.json";
      match output_file with
      | Some f => print (nl +:+ "🕵️  Report generated successfully named: '" +:+ f +:+ "', Enjoy your audit!🕵️" +:+ nl)
      | None =>
          print "FAILED to generate JSON report, please check the logs for errors."
      end.

(** A run from a fresh object, an empty console and an empty disk. *)
Definition initial_world (clock : string) (disk_error : option string) : World :=
  {| self := new_auditor; stdout := []; clock := clock;
     disk_error := disk_error; disk := [] |}.

(** ** Vocabulary of the statements *)

(** The two branches of [audit_permissive_rules] as tests on a record. *)
Definition is_critical (p : policy) : bool := is_permissive p && is_all_all p.
Definition is_high (p : policy) : bool := is_permissive p && negb (is_all_all p).

(** The three match criteria that the permissiveness classifier tests. *)
Inductive match_field := Source | Destination | Service.

Definition field_key (f : match_field) : string :=
  match f with
  | Source => "Source"
  | Destination => "Destination"
  | Service => "Service"
  end.

(** The lower-cased normalized form of a match criterion. *)
Definition field_text (f : match_field) (p : policy) : string :=
  Text.lower (_safe_string (get p (field_key f) (SStr ""))).

(** The wildcard boolean of a match criterion. *)
Definition wildcard (f : match_field) (p : policy) : bool :=
  match f with
  | Source => src_any p
  | Destination => dst_any p
  | Service => srv_any p
  end.

(** The positions reported by a finding sequence. *)
Definition unused_ids (l : list unused_finding) : list nat := u_id <$> l.
Definition permissive_ids (l : list permissive_finding) : list nat := p_id <$> l.
Definition logging_ids (l : list logging_finding) : list nat := l_id <$> l.

(** Sample records. *)
Definition scenario_a : policy :=
  {[ "Action" := VScalar (SStr "ACCEPT");
     "Source" := VScalar (SStr "all");
     "Destination" := VScalar (SStr "10.0.0.0/8");
     "Service" := VScalar (SStr "any");
     "Bytes" := VScalar (SStr "0 B");
     "Log" := VScalar (SStr "disable") ]}.

Definition scenario_d : policy :=
  {[ "Action" := VScalar (SStr "accept");
     "Source" := VList [SStr "lan"; SStr "dmz"];
     "Destination" := VScalar (SStr "10.0.0.0/8");
     "Service" := VScalar (SStr "HTTP");
     "Bytes" := VScalar (SStr "15420 MB");
     "Log" := VScalar (SStr "UTM") ]}.

Definition call_center : policy :=
  {[ "Action" := VScalar (SStr "ACCEPT");
     "Source" := VScalar (SStr "ALL-EXCEPT-DMZ");
     "Destination" := VScalar (SStr "10.1.0.0/16");
     "Service" := VScalar (SStr "Call-Center") ]}.

Definition bare_accept : policy := {[ "Action" := VScalar (SStr "Accept") ]}.

(** The five recommendation rules, the pair (priority, category) that
    identifies the entry of each, and the count that triggers it. *)
Inductive rec_kind :=
  | AllWildcard | SingleWildcard | UnusedRules | DuplicateGroups | NoLogging.

Definition kind_key (k : rec_kind) : string * string :=
  match k with
  | AllWildcard => ("CRITICAL", "Security")
  | SingleWildcard => ("HIGH", "Security")
  | UnusedRules => ("HIGH", "Cleanup")
  | DuplicateGroups => ("MEDIUM", "Optimization")
  | NoLogging => ("MEDIUM", "Monitoring")
  end.

Definition kind_count (r : Results) (k : rec_kind) : nat :=
  match k with
  | AllWildcard => list_len (r_all_all_rules r)
  | SingleWildcard => list_len (r_single_all_rules r)
  | UnusedRules => list_len (r_unused_rules r)
  | DuplicateGroups => list_len (r_duplicate_rules r)
  | NoLogging => no_logging_len r
  end.

Definition rec_key (x : recommendation) : string * string :=
  (priority x, category x).

(** The order in which the rules are listed, and the order in which
    [_generate_recommendations] evaluates them. *)
Definition listed_order : list rec_kind :=
  [AllWildcard; SingleWildcard; UnusedRules; DuplicateGroups; NoLogging].

Definition evaluation_order : list rec_kind :=
  [UnusedRules; AllWildcard; SingleWildcard; DuplicateGroups; NoLogging].

(** A results map with one unused rule and one all-wildcard rule. *)
Definition unused_and_critical : Results :=
  {| r_unused_rules := Some [unused_info 0 bare_accept];
     r_all_all_rules := Some [permissive_info 0 bare_accept "CRITICAL"];
     r_single_all_rules := Some [];
     r_duplicate_rules := Some [];
     r_logging := Some {| no_logging := []; with_logging := [] |} |}.

(** No character of [s] is a digit. *)
Fixpoint no_digit (s : string) : bool :=
  match s with
  | EmptyString => true
  | String c s' => negb (Text.is_digit c) && no_digit s'
  end.

(** [s] is a non-empty run of digits. *)
Fixpoint all_digits (s : string) : bool :=
  match s with
  | EmptyString => false
  | String c EmptyString => Text.is_digit c
  | String c s' => Text.is_digit c && all_digits s'
  end.

Definition starts_with_digit (s : string) : bool :=
  match s with
  | String c _ => Text.is_digit c
  | EmptyString => false
  end.

Definition starts_with_dot_digit (s : string) : bool :=
  match s with
  | String "." s' => starts_with_digit s'
  | _ => false
  end.

(** [tok] followed by [rest] is a longest numeric token: digits, then
    optionally a dot and digits, taken as far as they go. *)
Definition numeric_token (tok rest : string) : Prop :=
  starts_with_digit rest = false
  ∧ ((all_digits tok = true ∧ starts_with_dot_digit rest = false)
     ∨ ∃ ip fp, tok = ip +:+ "." +:+ fp
                ∧ all_digits ip = true ∧ all_digits fp = true).

(** The signature table built from a list of (signature, member) pairs. *)
Definition build_table (entries : list (string * duplicate_member))
  : signature_table :=
  foldl (λ t e, table_append e.1 e.2 t) [] entries.

(** The members stored under a signature, in encounter order. *)
Definition members_of (k : string) (entries : list (string * duplicate_member))
  : list duplicate_member :=
  (filter (λ e, e.1 = k) entries).*2.

(** The (signature, member) pair of each ACCEPT record, in input order. *)
Definition accept_entries (policies : list policy)
  : list (string * duplicate_member) :=
  (λ ip, (signature_of ip.2, duplicate_info ip.1 ip.2))
    <$> filter (λ ip, is_accept ip.2) (enumerate policies).

(** The position of the first member of a table item or of a group. *)
Definition head_id (rules : list duplicate_member) : nat :=
  default 0 (d_id <$> head rules).

Definition group_ids (g : duplicate_group) : list nat := d_id <$> g_rules g.

(** What the signature table holds after the entries [E]: one item per
    signature met, holding its members, items ordered by first member. *)
Definition table_ok (E : list (string * duplicate_member))
    (t : signature_table) : Prop :=
  NoDup t.*1
  ∧ t = (λ k, (k, members_of k E)) <$> t.*1
  ∧ (∀ k, k ∈ t.*1 ↔ members_of k E ≠ [])
  ∧ StronglySorted lt ((λ x, head_id x.2) <$> t).


(** The text of a percent field for a count [n] out of [total]:
    [round(n / total * 100, 2)] followed by "%", and "0%" for no rule. *)
Definition percent_text (n total : nat) : string :=
  (if 0 <? total
   then Binary64.repr
          (Binary64.round_ndigits
             (Binary64.mul_int (Binary64.truediv (Z.of_nat n) (Z.of_nat total))
                               100) 2)
   else "0") +:+ "%".

(** The results map once the four audits have stored their findings. *)
Definition results_of (policies : list policy) : Results :=
  {| r_unused_rules := Some (unused_rules_of policies);
     r_all_all_rules := Some (permissive_rules_of policies).1;
     r_single_all_rules := Some (permissive_rules_of policies).2;
     r_duplicate_rules := Some (duplicate_rules_of policies);
     r_logging := Some (logging_of policies) |}.

(** An auditor object over no rule whose results map exists. *)
Definition no_rules_world : World :=
  {| self := {| a_data := Some (JList []); a_policies := Some [];
                a_results := Some empty_results |};
     stdout := []; clock := "2024-01-01 00:00:00";
     disk_error := None; disk := [] |}.

Definition three_rules_world : World :=
  {| self := {| a_data := None;
                a_policies := Some [scenario_a; scenario_d; scenario_d];
                a_results := Some empty_results |};
     stdout := []; clock := "2024-01-01 00:00:00";
     disk_error := None; disk := [] |}.

(** An input document whose rule sequence is empty after unwrapping. *)
Definition empty_container : json_doc := JDict {[ "policies" := [] ]}.

(** ** Vocabulary of the further properties *)

(** Every digit of the text is the digit zero. *)
Fixpoint zero_digits (s : string) : bool :=
  match s with
  | EmptyString => true
  | String c s' => (negb (Text.is_digit c) || Ascii.eqb c "0") && zero_digits s'
  end.

(** A field that is missing from the record, or present with a value that
    Python treats as false. *)
Definition absent_or_false (p : policy) (key : string) : Prop :=
  match p !! key with
  | None => True
  | Some v => truthy v = false
  end.

(** Every character of the text is the digit zero. *)
Fixpoint only_zeros (s : string) : bool :=
  match s with
  | EmptyString => true
  | String c s' => Ascii.eqb c "0" && only_zeros s'
  end.

(** The number of members held by a signature table. *)
Definition table_size (t : signature_table) : nat :=
  sum_list_with (λ x, length x.2) t.

(** The rule sequence that [__init__] unwraps from the document. *)
Definition unwrapped (d : json_doc) : list policy :=
  match d with
  | JList ps => ps
  | JDict m =>
      match m !! "policies" with
      | Some ps => ps
      | None => default [] (m !! "Policy")
      end
  end.

(** The report assembled over the rules [ps] at the time [date]. *)
Definition report_of (date : string) (ps : list policy) : Report :=
  let total := length ps in
  {| rp_audit_info := {| date := date; total_rules := total |};
     rp_summary :=
       {| total_rules_analyzed := total;
          all_all_rules_count := length (permissive_rules_of ps).1;
          all_all_rules_percent :=
            percent_text (length (permissive_rules_of ps).1) total;
          single_all_rules_count := length (permissive_rules_of ps).2;
          single_all_rules_percent :=
            percent_text (length (permissive_rules_of ps).2) total;
          duplicate_groups_count := length (duplicate_rules_of ps);
          duplicate_groups_percent :=
            percent_text (length (duplicate_rules_of ps)) total;
          unused_rules_count := length (unused_rules_of ps);
          unused_rules_percent :=
            percent_text (length (unused_rules_of ps)) total;
          rules_without_logging := length (no_logging (logging_of ps));
          rules_without_logging_percent :=
            percent_text (length (no_logging (logging_of ps))) total |};
     rp_detailed_results :=
       {| dr_unused_rules := unused_rules_of ps;
          dr_all_all_rules := (permissive_rules_of ps).1;
          dr_single_all_rules := (permissive_rules_of ps).2;
          dr_duplicate_rules := duplicate_rules_of ps;
          dr_without_logging := no_logging (logging_of ps) |};
     rp_recommendations := _generate_recommendations (results_of ps) |}.

(** The world in which the report is dumped: the audits have stored their
    findings and the progress line has been printed. *)
Definition audited (w : World) (ps : list policy) : World :=
  {| self := {| a_data := a_data (self w); a_policies := Some ps;
                a_results := Some (results_of ps) |};
     stdout := stdout w ++ ["Generating JSON audit report..."];
     clock := clock w; disk_error := disk_error w; disk := disk w |}.

(** The world after the report has been written to [output_file]. *)
Definition written (w : World) (ps : list policy) (output_file : string)
  : World :=
  {| self := self (audited w ps);
     stdout := stdout w ++ ["Generating JSON audit report...";
                            "Audit saved in: " +:+ output_file];
     clock := clock w; disk_error := None;
     disk := disk w ++ [(output_file, report_of (clock w) ps)] |}.

(** The world [w] at a later reading [c] of the clock. *)
Definition at_time (c : string) (w : World) : World :=
  {| self := self w; stdout := stdout w; clock := c;
     disk_error := disk_error w; disk := disk w |}.

(** A world whose disk refuses the file. *)
Definition read_only_world : World :=
  {| self := {| a_data := None;
                a_policies := Some [scenario_a; scenario_d; scenario_d];
                a_results := Some empty_results |};
     stdout := []; clock := "2024-01-01 00:00:00";
     disk_error := Some "[Errno 13] Permission denied"; disk := [] |}.

(** The argument is [None] or a document that Python treats as false. *)
Definition no_document (json_data : option json_doc) : Prop :=
  match json_data with
  | None => True
  | Some d => doc_truthy d = false
  end.

(** The object after a successful [__init__] on the document [d]. *)
Definition initialised (d : json_doc) : Auditor :=
  {| a_data := Some d; a_policies := Some (unwrapped d);
     a_results := Some empty_results |}.

(** The lines that [main] prints. *)
Definition fatal_line : string :=
  nl +:+ "❗Fatal error: No JSON data or the JSON format is invalid. ❗​" +:+ nl.

Definition success_line (f : string) : string :=
  nl +:+ "🕵️  Report generated successfully named: '" +:+ f
     +:+ "', Enjoy your audit!🕵️" +:+ nl.

Definition report_file : string := "firewall_audit_report.json".

(** The digits of a numeric token before its dot. *)
Definition integer_part (tok : string) : string := (span_digits tok).1.

(** The count that the summary of a report gives for a category. *)
Definition summary_count (s : summary) (k : rec_kind) : nat :=
  match k with
  | AllWildcard => all_all_rules_count s
  | SingleWildcard => single_all_rules_count s
  | UnusedRules => unused_rules_count s
  | DuplicateGroups => duplicate_groups_count s
  | NoLogging => rules_without_logging s
  end.

(** The number of entries that the detailed results of a report list for a
    category. *)
Definition detail_count (d : detailed_results) (k : rec_kind) : nat :=
  match k with
  | AllWildcard => length (dr_all_all_rules d)
  | SingleWildcard => length (dr_single_all_rules d)
  | UnusedRules => length (dr_unused_rules d)
  | DuplicateGroups => length (dr_duplicate_rules d)
  | NoLogging => length (dr_without_logging d)
  end.

(** ** Vocabulary of the statements on texts *)

(** Every character of the text is an ASCII character.  On such texts the
    digit class, the white space and the [repr] of the embedding are
    those of Python. *)
Fixpoint is_ascii (s : string) : bool :=
  match s with
  | EmptyString => true
  | String c s' => (Text.code c <? 128) && is_ascii s'
  end.

Definition ascii_scalar (x : scalar) : bool :=
  match x with
  | SStr s => is_ascii s
  | _ => true
  end.

Definition ascii_value (v : value) : bool :=
  match v with
  | VScalar x => ascii_scalar x
  | VList xs => forallb ascii_scalar xs
  end.

(** The field [key] of the record, when present, holds ASCII text. *)
Definition ascii_field (p : policy) (key : string) : bool :=
  from_option ascii_value true (p !! key).

(** The normalized text of a field that defaults to the empty text. *)
Definition normalized (p : policy) (key : string) : string :=
  _safe_string (get p key (SStr "")).

(** Two characters that are the same, or the upper-case and the lower-case
    form of one letter. *)
Definition same_letter (a b : ascii) : bool :=
  Ascii.eqb a b
  || ((65 <=? Text.code a) && (Text.code a <=? 90)
      && (Text.code b =? Text.code a + 32))
  || ((65 <=? Text.code b) && (Text.code b <=? 90)
      && (Text.code a =? Text.code b + 32)).

(** Two texts that are equal when the case of letters is ignored. *)
Fixpoint caseless_eq (s t : string) : bool :=
  match s, t with
  | EmptyString, EmptyString => true
  | String a s', String b t' => same_letter a b && caseless_eq s' t'
  | _, _ => false
  end.

(** The text is made of white space only. *)
Fixpoint blank (s : string) : bool :=
  match s with
  | EmptyString => true
  | String c s' => Text.is_space c && blank s'
  end.

Fixpoint last_char (s : string) : option ascii :=
  match s with
  | EmptyString => None
  | String c EmptyString => Some c
  | String _ s' => last_char s'
  end.

(** The text neither begins nor ends with white space. *)
Definition tight (t : string) : bool :=
  match t with
  | EmptyString => true
  | String c _ =>
      negb (Text.is_space c)
      && negb (from_option Text.is_space false (last_char t))
  end.

(** [t] is [s] without its leading and trailing white space. *)
Definition trimmed (s t : string) : Prop :=
  ∃ l r, s = l +:+ t +:+ r ∧ blank l = true ∧ blank r = true ∧ tight t = true.

(** The action of the record is ACCEPT, in any case of letters. *)
Definition accepts (p : policy) : Prop :=
  caseless_eq (normalized p "Action") "ACCEPT" = true.

(** ** Vocabulary of the statements on numbers *)

(** The number that a run of decimal digits denotes. *)
Fixpoint decimal_of (ds : string) : Z :=
  match ds with
  | EmptyString => 0
  | String c ds' =>
      Z.of_nat (Text.code c - 48) * 10 ^ Z.of_nat (String.length ds')
      + decimal_of ds'
  end.

(** A decimal literal cut at its dot: the text before it and the text
    after it (empty when there is no dot). *)
Fixpoint split_dot (tok : string) : string * string :=
  match tok with
  | EmptyString => (EmptyString, EmptyString)
  | String c tok' =>
      if Ascii.eqb c "." then (EmptyString, tok')
      else let '(ip, fp) := split_dot tok' in (String c ip, fp)
  end.

(** The exact number that the decimal literal [tok] denotes: its integer
    part plus its fraction. *)
Definition token_value (tok : string) : Q :=
  let '(ip, fp) := split_dot tok in
  (inject_Z (decimal_of ip)
   + inject_Z (decimal_of fp) / inject_Z (10 ^ Z.of_nat (String.length fp)))%Q.

(** ** Vocabulary of the statements on counters and log settings *)

(** The number read from a traffic counter, in the words of the
    specification as amended: 0 for a counter that is absent, false or
    literally "0 B", 0 for a text without any digit, and otherwise the
    binary64 nearest to the first decimal number that occurs in the
    text. *)
Inductive reads_as (v : value) : number → Prop :=
  | reads_absent :
      truthy v = false ∨ v = VScalar (SStr "0 B") → reads_as v (NInt 0)
  | reads_no_number :
      no_digit (py_str v) = true → reads_as v (NInt 0)
  | reads_first_number (pre tok rest : string) :
      truthy v = true → v ≠ VScalar (SStr "0 B") →
      py_str v = pre +:+ tok +:+ rest →
      no_digit pre = true → numeric_token tok rest →
      reads_as v (NFloat (Binary64.round64 (token_value tok))).

(** The bytes counter of the record reads as zero; a record without the
    field counts as "0 B". *)
Definition reads_zero (p : policy) : Prop :=
  match p !! "Bytes" with
  | None => True
  | Some v => ∃ n, reads_as v n ∧ number_is_zero n = true
  end.

(** The trimmed log setting of the record is empty, or is "none" or
    "disable" in any case of letters. *)
Definition logging_disabled (p : policy) : Prop :=
  ∃ t, trimmed (normalized p "Log") t
       ∧ (t = "" ∨ caseless_eq t "none" = true
          ∨ caseless_eq t "disable" = true).

(** Sample records: a rule that is not ACCEPT and has no traffic, and one
    whose log setting is padded and capitalized. *)
Definition idle_deny : policy :=
  {[ "Action" := VScalar (SStr "deny"); "Bytes" := VScalar (SStr "0 B");
     "Log" := VScalar (SStr "all") ]}.

Definition padded_log : policy :=
  {[ "Action" := VScalar (SStr "deny");
     "Log" := VScalar (SStr "  Disable ") ]}.

(** ** Vocabulary of the statements on signatures *)

(** The four fields that enter a signature hold ASCII text. *)
Definition ascii_record (p : policy) : bool :=
  ascii_field p "Source" && ascii_field p "Destination"
  && ascii_field p "Service" && ascii_field p "Interface Pair".

(** [sig] is the signature of the ACCEPT record [p] in the words of the
    specification: the trimmed source, destination, service and interface
    pair, then the action, joined by "|" in that order. *)
Definition has_signature (p : policy) (sig : string) : Prop :=
  ∃ source destination service interface_pair,
    trimmed (normalized p "Source") source
    ∧ trimmed (normalized p "Destination") destination
    ∧ trimmed (normalized p "Service") service
    ∧ trimmed (normalized p "Interface Pair") interface_pair
    ∧ sig = Text.join "|" [source; destination; service; interface_pair;
                           "ACCEPT"].

(** Two ACCEPT rules that differ in white space and in the case of the
    action only. *)
Definition spaced_rule : policy :=
  {[ "Action" := VScalar (SStr "accept");
     "Source" := VScalar (SStr " lan ");
     "Destination" := VScalar (SStr "10.0.0.0/8");
     "Service" := VScalar (SStr "HTTP  ") ]}.

Definition tidy_rule : policy :=
  {[ "Action" := VScalar (SStr "ACCEPT");
     "Source" := VScalar (SStr "lan");
     "Destination" := VScalar (SStr "10.0.0.0/8");
     "Service" := VScalar (SStr "HTTP") ]}.

(** ** Vocabulary of the statements on percentages *)

(** [x] is the percentage of [n] in [total] rounded to two decimals: the
    binary64 nearest to a number [k]/100 of two decimals that lies within
    half a hundredth of [100 * n / total], up to the error of the float
    division and multiplication, which is below [10^-12]. *)
Definition is_percent_of (n total : nat) (x : Binary64.float) : Prop :=
  ∃ k : Z,
    x = Binary64.round64 (inject_Z k / 100)
    ∧ (Qabs (inject_Z k / 100
             - 100 * inject_Z (Z.of_nat n) / inject_Z (Z.of_nat total))
       <= (1 # 200) + (1 # 1000000000000))%Q.

(** The percent field that the summary of a report gives for a category. *)
Definition summary_percent (s : summary) (k : rec_kind) : string :=
  match k with
  | AllWildcard => all_all_rules_percent s
  | SingleWildcard => single_all_rules_percent s
  | UnusedRules => unused_rules_percent s
  | DuplicateGroups => duplicate_groups_percent s
  | NoLogging => rules_without_logging_percent s
  end.

(** The world that the constructor leaves on a document of three rules. *)
Definition three_rule_document : json_doc :=
  JList [bare_accept; padded_log; scenario_d].

Definition constructed_world : World :=
  (__init__ (Some three_rule_document)
            (initial_world "2024-01-01 00:00:00" None)).2.

(** * Properties *)

(** ** Text *)

Section text_facts.

Lemma append_nil_l (s : string) : "" +:+ s = s.
Proof. reflexivity. Qed.

Lemma append_cons (c : ascii) (s t : string) :
  String c s +:+ t = String c (s +:+ t).
Proof. reflexivity. Qed.

Lemma append_nil_r (s : string) : s +:+ "" = s.
Proof. induction s as [|c s IH]; [done | by rewrite append_cons, IH]. Qed.

Lemma append_assoc (a b c : string) : (a +:+ b) +:+ c = a +:+ (b +:+ c).
Proof. induction a as [|x a IH]; [done | by rewrite !append_cons, IH]. Qed.

(** [startswith] is the prefix relation. *)
Lemma starts_with_spec (p s : string) :
  Text.starts_with p s = true ↔ ∃ post, s = p +:+ post.
Proof.
  revert s. induction p as [|a p IH]; intros s; simpl.
  - split; [intros _; by exists s | done].
  - destruct s as [|b s].
    + split; [done | intros [post H]; discriminate H].
    + destruct (ascii_dec a b) as [->|Hne].
      * rewrite IH. split; intros [post H]; exists post.
        -- by rewrite H.
        -- rewrite append_cons in H. by injection H.
      * split; [done|]. intros [post H]. rewrite append_cons in H.
        injection H. congruence.
Qed.

(** [needle in hay] is the substring relation. *)
Lemma contains_spec (needle hay : string) :
  Text.contains needle hay = true ↔ ∃ pre post, hay = pre +:+ needle +:+ post.
Proof.
  induction hay as [|c hay IH].
  - simpl. rewrite orb_false_r, starts_with_spec. split.
    + intros [post H]. by exists "", post.
    + intros [pre [post H]]. destruct pre; [by exists post | discriminate H].
  - cbn [Text.contains]. rewrite orb_true_iff, starts_with_spec, IH. split.
    + intros [[post H] | [pre [post H]]].
      * by exists "", post.
      * exists (String c pre), post. by rewrite append_cons, H.
    + intros [pre [post H]]. destruct pre as [|x pre].
      * left. by exists post.
      * right. exists pre, post. rewrite append_cons in H. by injection H.
Qed.

End text_facts.

(** ** The loops *)

Section loops.

Context {A B : Type}.

(** A loop that appends [f x] for the elements passing the test [c]
    collects them in order. *)
Lemma foldl_collect (c : A → bool) (f : A → B)
    (step : list B → A → list B) (acc : list B) (l : list A) :
  (∀ acc x, step acc x = if c x then acc ++ [f x] else acc) →
  foldl step acc l = acc ++ (f <$> filter (λ x, c x) l).
Proof.
  intros Hstep. revert acc. induction l as [|x l IH]; intros acc; simpl.
  - by rewrite app_nil_r.
  - rewrite IH, Hstep, filter_cons. destruct (c x) eqn:Hc.
    + rewrite decide_True by done. by rewrite <- app_assoc.
    + rewrite decide_False; [done|]. by intros ?.
Qed.

End loops.

Lemma enumerate_lookup {A} (l : list A) (i : nat) (x : A) :
  (i, x) ∈ enumerate l ↔ l !! i = Some x.
Proof.
  unfold enumerate. rewrite elem_of_lookup_imap. split.
  - intros (j & y & [= -> ->] & H). done.
  - intros H. by exists i, x.
Qed.

Lemma enumerate_fst {A} (l : list A) : (enumerate l).*1 = seq 0 (length l).
Proof.
  unfold enumerate. rewrite fmap_imap.
  rewrite (imap_ext _ (λ j _, id j)); [|done].
  by rewrite imap_seq_0, list_fmap_id.
Qed.

Lemma enumerate_NoDup_fst {A} (l : list A) : NoDup (enumerate l).*1.
Proof. rewrite enumerate_fst. apply NoDup_seq. Qed.

(** The positions selected by a test on the record are distinct, and a
    position is selected exactly when its record passes the test. *)
Lemma selected_ids {A} (c : A → bool) (l : list A) :
  NoDup ((λ ip, ip.1 + 1) <$> filter (λ ip : nat * A, c ip.2) (enumerate l))
  ∧ ∀ i x, l !! i = Some x →
      (i + 1 ∈ (λ ip, ip.1 + 1) <$> filter (λ ip : nat * A, c ip.2) (enumerate l)
       ↔ c x = true).
Proof.
  split.
  - assert (∀ k : list (nat * A),
              (λ ip, ip.1 + 1) <$> k = (λ i, i + 1) <$> k.*1) as ->
      by (intros k; by rewrite <- list_fmap_compose).
    assert (Inj (=) (=) (λ i : nat, i + 1)) by (intros a b; simpl; lia).
    apply (NoDup_fmap_2 (λ i, i + 1)).
    apply (sublist_NoDup _ (enumerate l).*1); [apply enumerate_NoDup_fst|].
    apply fmap_sublist, sublist_filter.
  - intros i x Hi. rewrite list_elem_of_fmap. split.
    + intros ([j y] & Hj & Hin). simpl in Hj.
      apply list_elem_of_filter in Hin as [Hc Hin]. simpl in Hc.
      apply enumerate_lookup in Hin.
      assert (j = i) as -> by lia. rewrite Hi in Hin. injection Hin as <-.
      by destruct (c x).
    + intros Hc. exists (i, x). split; [done|].
      apply list_elem_of_filter. split; [simpl; by rewrite Hc|].
      by apply enumerate_lookup.
Qed.

Lemma selected_ids_elem {A} (c : A → bool) (l : list A) (n : nat) :
  n ∈ (λ ip, ip.1 + 1) <$> filter (λ ip : nat * A, c ip.2) (enumerate l)
  ↔ ∃ i x, n = i + 1 ∧ l !! i = Some x ∧ c x = true.
Proof.
  rewrite list_elem_of_fmap. split.
  - intros ([i x] & -> & Hin). apply list_elem_of_filter in Hin as [Hc Hin].
    apply enumerate_lookup in Hin. exists i, x. simpl in *.
    by destruct (c x).
  - intros (i & x & -> & Hi & Hc). exists (i, x). split; [done|].
    apply list_elem_of_filter. split; [simpl; by rewrite Hc|].
    by apply enumerate_lookup.
Qed.

(** Two tests that exclude each other select disjoint sets of positions. *)
Lemma selected_ids_disjoint {A} (c1 c2 : A → bool) (l : list A) :
  (∀ x, c1 x = true → c2 x = true → False) →
  NoDup (((λ ip, ip.1 + 1) <$> filter (λ ip : nat * A, c1 ip.2) (enumerate l))
         ++ ((λ ip, ip.1 + 1) <$> filter (λ ip : nat * A, c2 ip.2) (enumerate l))).
Proof.
  intros Hex. apply NoDup_app. split; [apply selected_ids|].
  split; [|apply selected_ids].
  intros n (i & x & -> & Hi & H1)%selected_ids_elem
           (j & y & Hj & Hjl & H2)%selected_ids_elem.
  assert (j = i) as -> by lia. rewrite Hi in Hjl. injection Hjl as <-.
  by eapply Hex.
Qed.

(** *** The three loops as selections *)

Lemma unused_rules_of_eq (policies : list policy) :
  unused_rules_of policies
  = (λ ip, unused_info ip.1 ip.2)
      <$> filter (λ ip, is_unused ip.2) (enumerate policies).
Proof.
  unfold unused_rules_of.
  rewrite (foldl_collect (λ ip, is_unused ip.2) (λ ip, unused_info ip.1 ip.2));
    [done|]. by intros acc [i x].
Qed.

Lemma unused_rules_ids (policies : list policy) :
  unused_ids (unused_rules_of policies)
  = (λ ip, ip.1 + 1) <$> filter (λ ip, is_unused ip.2) (enumerate policies).
Proof. unfold unused_ids. by rewrite unused_rules_of_eq, <- list_fmap_compose. Qed.

Lemma permissive_loop_eq (l : list (nat * policy))
    (acc : list permissive_finding * list permissive_finding) :
  foldl permissive_step acc l
  = (acc.1 ++ ((λ ip, permissive_info ip.1 ip.2 "CRITICAL")
                 <$> filter (λ ip, is_critical ip.2) l),
     acc.2 ++ ((λ ip, permissive_info ip.1 ip.2 "HIGH")
                 <$> filter (λ ip, is_high ip.2) l)).
Proof.
  revert acc. induction l as [|[i x] l IH]; intros [a b]; simpl.
  - by rewrite !app_nil_r.
  - rewrite IH, !filter_cons. unfold is_critical, is_high. simpl.
    destruct (is_permissive x), (is_all_all x); simpl;
      repeat case_decide; try done; simpl; by rewrite <- ?app_assoc.
Qed.

Lemma permissive_rules_of_eq (policies : list policy) :
  permissive_rules_of policies
  = ((λ ip, permissive_info ip.1 ip.2 "CRITICAL")
       <$> filter (λ ip, is_critical ip.2) (enumerate policies),
     (λ ip, permissive_info ip.1 ip.2 "HIGH")
       <$> filter (λ ip, is_high ip.2) (enumerate policies)).
Proof. unfold permissive_rules_of. by rewrite permissive_loop_eq. Qed.

Lemma logging_loop_eq (l : list (nat * policy)) (acc : logging_result) :
  foldl logging_step acc l
  = {| no_logging :=
         no_logging acc ++ ((λ ip, logging_info ip.1 ip.2)
                              <$> filter (λ ip, is_no_logging ip.2) l);
       with_logging :=
         with_logging acc ++ ((λ ip, logging_info ip.1 ip.2)
                                <$> filter (λ ip, negb (is_no_logging ip.2)) l) |}.
Proof.
  revert acc. induction l as [|[i x] l IH]; intros [a b]; simpl.
  - by rewrite !app_nil_r.
  - rewrite IH, !filter_cons. simpl.
    destruct (is_no_logging x); simpl;
      repeat case_decide; try done; simpl; by rewrite <- ?app_assoc.
Qed.

Lemma logging_of_eq (policies : list policy) :
  logging_of policies
  = {| no_logging :=
         (λ ip, logging_info ip.1 ip.2)
           <$> filter (λ ip, is_no_logging ip.2) (enumerate policies);
       with_logging :=
         (λ ip, logging_info ip.1 ip.2)
           <$> filter (λ ip, negb (is_no_logging ip.2)) (enumerate policies) |}.
Proof. unfold logging_of. by rewrite logging_loop_eq. Qed.

Lemma permissive_rules_ids (policies : list policy) :
  permissive_ids (permissive_rules_of policies).1
  = (λ ip, ip.1 + 1) <$> filter (λ ip, is_critical ip.2) (enumerate policies)
  ∧ permissive_ids (permissive_rules_of policies).2
    = (λ ip, ip.1 + 1) <$> filter (λ ip, is_high ip.2) (enumerate policies).
Proof.
  unfold permissive_ids. rewrite permissive_rules_of_eq. simpl.
  by rewrite <- !list_fmap_compose.
Qed.

Lemma logging_ids_eq (policies : list policy) :
  logging_ids (no_logging (logging_of policies))
  = (λ ip, ip.1 + 1) <$> filter (λ ip, is_no_logging ip.2) (enumerate policies)
  ∧ logging_ids (with_logging (logging_of policies))
    = (λ ip, ip.1 + 1)
        <$> filter (λ ip, negb (is_no_logging ip.2)) (enumerate policies).
Proof.
  unfold logging_ids. rewrite logging_of_eq. simpl.
  by rewrite <- !list_fmap_compose.
Qed.

(** ** The unused-rule detector *)

Lemma extract_15420_MB :
  _extract_bytes_value (VScalar (SStr "15420 MB"))
  = NFloat (Binary64.Finite 15420).
Proof. by vm_compute. Qed.

(** ** The permissiveness classifier *)

Lemma wildcard_iff (f : match_field) (p : policy) :
  wildcard f p = true
  ↔ field_text f p = ""
    ∨ (∃ pre post, field_text f p = pre +:+ "all" +:+ post)
    ∨ (∃ pre post, field_text f p = pre +:+ "any" +:+ post).
Proof.
  assert (∀ s, str_in s ["all"; "any"; ""] = true
               ↔ s = "all" ∨ s = "any" ∨ s = "") as Hin.
  { intros s. unfold str_in. rewrite bool_decide_eq_true.
    rewrite !elem_of_cons, elem_of_nil. tauto. }
  assert ((∃ pre post, "all" = pre +:+ "all" +:+ post)) as Hall
    by (by exists "", "").
  assert ((∃ pre post, "any" = pre +:+ "any" +:+ post)) as Hany
    by (by exists "", "").
  destruct f; unfold wildcard, src_any, dst_any, srv_any, field_text, field_key;
    cbv zeta; rewrite !orb_true_iff, Hin, !contains_spec;
    (split; [intros [[[->| [->| ->]] | H] | H]; tauto | tauto]).
Qed.

(** C9. The wildcard test is substring containment, not exact match: when
    the lower-cased normalized form of the source, destination or service
    contains "all" or "any" anywhere, the wildcard boolean of that
    criterion is true. *)
Theorem wildcard_by_substring (f : match_field) (p : policy) (pre post : string) :
  field_text f p = pre +:+ "all" +:+ post
  ∨ field_text f p = pre +:+ "any" +:+ post →
  wildcard f p = true.
Proof.
  intros H. apply wildcard_iff. right.
  destruct H as [H | H]; [left | right]; by exists pre, post.
Qed.

Lemma wildcard_by_substring_witness :
  field_text Service call_center = "c" +:+ "all" +:+ "-center"
  ∧ field_text Source call_center = "" +:+ "all" +:+ "-except-dmz"
  ∧ srv_any call_center = true
  ∧ src_any call_center = true.
Proof.
  split; [reflexivity|]. split; [reflexivity|]. split.
  - apply (wildcard_by_substring Service call_center "c" "-center").
    left. reflexivity.
  - apply (wildcard_by_substring Source call_center "" "-except-dmz").
    left. reflexivity.
Defined.

Lemma permissive_risk_levels (policies : list policy) :
  Forall (λ f, p_risk_level f = "CRITICAL") (permissive_rules_of policies).1
  ∧ Forall (λ f, p_risk_level f = "HIGH") (permissive_rules_of policies).2.
Proof.
  rewrite permissive_rules_of_eq. simpl.
  split; apply Forall_fmap, Forall_forall; by intros [i x] _.
Qed.

Lemma permissive_ids_spec (policies : list policy) (i : nat) (p : policy) :
  policies !! i = Some p →
  (i + 1 ∈ permissive_ids (permissive_rules_of policies).1
   ↔ is_critical p = true)
  ∧ (i + 1 ∈ permissive_ids (permissive_rules_of policies).2
     ↔ is_high p = true).
Proof.
  intros Hi. destruct (permissive_rules_ids policies) as [-> ->].
  split; by apply selected_ids.
Qed.

(** C2. For a record at position [i + 1]: it is in the all-wildcard
    sequence exactly when its action is ACCEPT and the three wildcard
    booleans are true, in the single-wildcard sequence exactly when its
    action is ACCEPT and some but not all of them are true, hence in
    neither when no boolean is true or the action is not ACCEPT; every
    all-wildcard finding has risk level CRITICAL and every single-wildcard
    finding HIGH; no position occurs twice, within or across the two
    sequences. *)
Theorem permissive_classification (policies : list policy) (i : nat) (p : policy) :
  policies !! i = Some p →
  let all_all := (permissive_rules_of policies).1 in
  let single_all := (permissive_rules_of policies).2 in
  (i + 1 ∈ permissive_ids all_all
   ↔ action_upper p = "ACCEPT"
     ∧ src_any p = true ∧ dst_any p = true ∧ srv_any p = true)
  ∧ (i + 1 ∈ permissive_ids single_all
     ↔ action_upper p = "ACCEPT"
       ∧ (src_any p = true ∨ dst_any p = true ∨ srv_any p = true)
       ∧ ¬ (src_any p = true ∧ dst_any p = true ∧ srv_any p = true))
  ∧ Forall (λ f, p_risk_level f = "CRITICAL") all_all
  ∧ Forall (λ f, p_risk_level f = "HIGH") single_all
  ∧ NoDup (permissive_ids all_all ++ permissive_ids single_all).
Proof.
  intros Hi all_all single_all. subst all_all single_all.
  destruct (permissive_ids_spec policies i p Hi) as [Haa Hsa].
  destruct (permissive_risk_levels policies) as [Hc Hh].
  rewrite Haa, Hsa.
  split; [|split; [|split; [exact Hc|split; [exact Hh|]]]].
  - unfold is_critical, is_permissive, is_all_all.
    rewrite !andb_true_iff, !orb_true_iff, String.eqb_eq. tauto.
  - unfold is_high, is_permissive, is_all_all.
    rewrite !andb_true_iff, negb_true_iff, !orb_true_iff, String.eqb_eq.
    destruct (src_any p), (dst_any p), (srv_any p); simpl;
      intuition congruence.
  - destruct (permissive_rules_ids policies) as [-> ->].
    apply (selected_ids_disjoint is_critical is_high).
    intros x. unfold is_critical, is_high.
    destruct (is_permissive x), (is_all_all x); simpl; congruence.
Qed.

Lemma permissive_classification_witness :
  [scenario_a; bare_accept; scenario_d] !! 1 = Some bare_accept
  ∧ 1 + 1 ∈ permissive_ids
              (permissive_rules_of [scenario_a; bare_accept; scenario_d]).1
  ∧ 0 + 1 ∈ permissive_ids
              (permissive_rules_of [scenario_a; bare_accept; scenario_d]).2.
Proof.
  split; [reflexivity|]. split.
  - apply (permissive_classification
             [scenario_a; bare_accept; scenario_d] 1 bare_accept);
      [reflexivity|]. repeat split; reflexivity.
  - apply (permissive_classification
             [scenario_a; bare_accept; scenario_d] 0 scenario_a);
      [reflexivity|]. split; [reflexivity|]. split.
    + left. reflexivity.
    + intros (_ & H & _). vm_compute in H. discriminate H.
Defined.

(** C10. An absent source, destination or service makes the wildcard
    boolean of that criterion true; an ACCEPT record with all three absent
    is reported in the all-wildcard sequence with risk level CRITICAL, and
    not in the single-wildcard sequence. *)
Theorem absent_field_is_wildcard (policies : list policy) (i : nat) (p : policy) :
  policies !! i = Some p →
  (∀ f, p !! field_key f = None → wildcard f p = true)
  ∧ (action_upper p = "ACCEPT" →
     (∀ f, p !! field_key f = None) →
     (∃ finding, finding ∈ (permissive_rules_of policies).1
                 ∧ p_id finding = i + 1
                 ∧ p_risk_level finding = "CRITICAL")
     ∧ i + 1 ∉ permissive_ids (permissive_rules_of policies).2).
Proof.
  intros Hi.
  assert (∀ f, p !! field_key f = None → wildcard f p = true) as Hw.
  { intros f Hf. apply wildcard_iff. left.
    unfold field_text, get. by rewrite Hf. }
  split; [exact Hw|]. intros Hacc Habs.
  pose proof (Hw Source (Habs Source)) as Hs.
  pose proof (Hw Destination (Habs Destination)) as Hd.
  pose proof (Hw Service (Habs Service)) as Hv. simpl in Hs, Hd, Hv.
  destruct (permissive_ids_spec policies i p Hi) as [Haa Hsa].
  destruct (permissive_risk_levels policies) as [Hc _].
  assert (is_critical p = true) as Hcrit.
  { unfold is_critical, is_permissive, is_all_all.
    apply String.eqb_eq in Hacc. by rewrite Hacc, Hs, Hd, Hv. }
  split.
  - apply Haa in Hcrit.
    apply list_elem_of_fmap in Hcrit as (finding & Hid & Hin).
    exists finding. split; [done|]. split; [done|].
    by apply (proj1 (Forall_forall _ _) Hc).
  - rewrite Hsa. unfold is_high, is_all_all. rewrite Hs, Hd, Hv. simpl.
    rewrite andb_false_r. done.
Qed.

Lemma absent_field_is_wildcard_witness :
  [scenario_d; bare_accept] !! 1 = Some bare_accept
  ∧ wildcard Destination bare_accept = true
  ∧ ∃ finding, finding ∈ (permissive_rules_of [scenario_d; bare_accept]).1
               ∧ p_id finding = 1 + 1
               ∧ p_risk_level finding = "CRITICAL".
Proof.
  split; [reflexivity|].
  destruct (absent_field_is_wildcard [scenario_d; bare_accept] 1 bare_accept)
    as [Hw Hall]; [reflexivity|].
  split; [apply Hw; reflexivity|].
  apply Hall; [reflexivity|]. intros f. destruct f; reflexivity.
Defined.

(** ** The recommendation synthesizer *)

Lemma list_truthy_len {A} (o : option (list A)) :
  list_truthy o = (0 <? list_len o).
Proof. by destruct o as [[|x l]|]. Qed.

Lemma kind_key_inj (k1 k2 : rec_kind) : kind_key k1 = kind_key k2 → k1 = k2.
Proof. destruct k1, k2; simpl; intros H; first [done | discriminate H]. Qed.

(** The entry of each kind. *)
Lemma recommendations_eq (r : Results) :
  ∃ e : rec_kind → recommendation,
    (∀ k, rec_key (e k) = kind_key k ∧ count (e k) = kind_count r k)
    ∧ _generate_recommendations r
      = (e <$> filter (λ k, 0 < kind_count r k) evaluation_order).
Proof.
  exists (λ k,
    match k with
    | UnusedRules =>
        {| priority := "HIGH"; category := "Cleanup";
           issue := "Unused ACCEPT rules";
           count := list_len (r_unused_rules r);
           action := "Remove or disable these rules to reduce attack surface" |}
    | AllWildcard =>
        {| priority := "CRITICAL"; category := "Security";
           issue := "Rules with ALL ALL configuration";
           count := list_len (r_all_all_rules r);
           action := "URGENT: Restrict source, destination and services - these rules allow everything" |}
    | SingleWildcard =>
        {| priority := "HIGH"; category := "Security";
           issue := "Rules with single ALL configuration";
           count := list_len (r_single_all_rules r);
           action := "Restrict sources, destinations and services according to least privilege principle" |}
    | DuplicateGroups =>
        {| priority := "MEDIUM"; category := "Optimization";
           issue := "Duplicate rules";
           count := list_len (r_duplicate_rules r);
           action := "Consolidate or remove redundant rules" |}
    | NoLogging =>
        {| priority := "MEDIUM"; category := "Monitoring";
           issue := "Rules without logging";
           count := no_logging_len r;
           action := "Enable logging for traceability and monitoring" |}
    end).
  split; [by intros []|].
  unfold _generate_recommendations, evaluation_order.
  rewrite !list_truthy_len, !filter_cons, filter_nil. cbn [kind_count].
  destruct (list_len (r_unused_rules r)), (list_len (r_all_all_rules r)),
    (list_len (r_single_all_rules r)), (list_len (r_duplicate_rules r)),
    (no_logging_len r); reflexivity.
Qed.

Lemma elem_of_evaluation_order (k : rec_kind) : k ∈ evaluation_order.
Proof. unfold evaluation_order. destruct k; set_solver. Qed.

(** C1, as the code has it. A recommendation of a category is in the list
    exactly when the count of that category is greater than zero, it then
    carries that count, and the entries appear in the order: HIGH unused
    rules, CRITICAL all-wildcard, HIGH single-wildcard, MEDIUM duplicate
    groups, MEDIUM rules without logging. *)
Theorem recommendations_in_evaluation_order (r : Results) :
  let keys := rec_key <$> _generate_recommendations r in
  (∀ k, kind_key k ∈ keys ↔ 0 < kind_count r k)
  ∧ (∀ x k, x ∈ _generate_recommendations r → rec_key x = kind_key k →
            count x = kind_count r k)
  ∧ keys `sublist_of` (kind_key <$> evaluation_order).
Proof.
  destruct (recommendations_eq r) as (e & He & ->). cbv zeta.
  rewrite <- list_fmap_compose.
  split; [|split].
  - intros k. rewrite list_elem_of_fmap. split.
    + intros (k' & Hk & Hin). apply list_elem_of_filter in Hin as [Hpos _].
      simpl in Hk. rewrite (proj1 (He k')) in Hk.
      by rewrite (kind_key_inj _ _ Hk).
    + intros Hpos. exists k. split; [simpl; by rewrite (proj1 (He k))|].
      apply list_elem_of_filter. split; [done | apply elem_of_evaluation_order].
  - intros x k (k' & -> & _)%list_elem_of_fmap Hk.
    rewrite (proj1 (He k')) in Hk. apply kind_key_inj in Hk as ->.
    apply He.
  - rewrite (list_fmap_ext (rec_key ∘ e) kind_key
               (filter (λ k, 0 < kind_count r k) evaluation_order))
      by (intros i k _; apply He).
    apply fmap_sublist, sublist_filter.
Qed.

(** C1, the listed order: with one unused rule and one all-wildcard rule
    the list holds the HIGH cleanup entry first and the CRITICAL entry
    second, which is not the order CRITICAL, single-wildcard, unused,
    duplicates, logging. *)
Lemma recommendations_not_in_listed_order :
  rec_key <$> _generate_recommendations unused_and_critical
    = [kind_key UnusedRules; kind_key AllWildcard]
  ∧ ¬ (rec_key <$> _generate_recommendations unused_and_critical)
        `sublist_of` (kind_key <$> listed_order).
Proof.
  split; [reflexivity|]. intros H. vm_compute in H.
  repeat (apply sublist_cons_r in H as [H | (l' & Heq & H)];
          [|try discriminate Heq; injection Heq as <-]);
    try (apply sublist_nil_r in H; discriminate H).
Qed.

(** ** The numeric extractor *)

Lemma span_digits_app (ds rest : string) :
  all_digits ds = true → starts_with_digit rest = false →
  span_digits (ds +:+ rest) = (ds, rest).
Proof.
  intros Hds Hrest. induction ds as [|c ds IH]; [done|].
  rewrite append_cons. cbn [span_digits]. destruct ds as [|c' ds].
  - cbn [all_digits] in Hds. rewrite Hds, append_nil_l.
    destruct rest as [|x rest]; [done|].
    cbn [span_digits]. cbn in Hrest. by rewrite Hrest.
  - cbn [all_digits] in Hds. apply andb_true_iff in Hds as [Hc Hds].
    rewrite Hc, (IH Hds). done.
Qed.

Lemma all_digits_nonempty (ds : string) : all_digits ds = true → ds ≠ "".
Proof. by destruct ds. Qed.

Lemma all_digits_starts (ds rest : string) :
  all_digits ds = true → starts_with_digit (ds +:+ rest) = true.
Proof.
  destruct ds as [|c [|c' ds]]; [done| |]; cbn; [done|].
  by intros [? _]%andb_true_iff.
Qed.

Lemma match_number_token (tok rest : string) :
  numeric_token tok rest → match_number (tok +:+ rest) = Some tok.
Proof.
  intros [Hrest [[Htok Hdot] | (ip & fp & -> & Hip & Hfp)]]; unfold match_number.
  - rewrite (span_digits_app tok rest Htok Hrest).
    destruct tok as [|c tok]; [done|].
    destruct rest as [|x rest]; [done|].
    destruct (ascii_dec x ".") as [->|Hx].
    + cbn in Hdot. destruct rest as [|y rest]; [done|].
      cbn in Hdot. cbn [span_digits]. by rewrite Hdot.
    + destruct x as [[] [] [] [] [] [] [] []]; try done.
  - rewrite !append_assoc.
    change ("." +:+ fp +:+ rest) with (String "." (fp +:+ rest)).
    rewrite (span_digits_app ip (String "." (fp +:+ rest)) Hip eq_refl).
    destruct ip as [|c ip]; [done|]. simpl.
    rewrite (span_digits_app fp rest Hfp Hrest).
    by destruct fp.
Qed.

Lemma re_search_skip (pre s : string) :
  no_digit pre = true → re_search_number (pre +:+ s) = re_search_number s.
Proof.
  intros Hpre. induction pre as [|c pre IH]; [done|].
  cbn in Hpre. apply andb_true_iff in Hpre as [Hc Hpre].
  rewrite append_cons. cbn [re_search_number].
  apply negb_true_iff in Hc. rewrite Hc. by apply IH.
Qed.

Lemma re_search_none (s : string) :
  re_search_number s = None ↔ no_digit s = true.
Proof.
  induction s as [|c s IH]; [done|]. cbn [re_search_number no_digit].
  destruct (Text.is_digit c) eqn:Hc; simpl.
  - split; [|done]. unfold match_number. cbn [span_digits]. rewrite Hc.
    destruct (span_digits s) as [ds rest].
    destruct rest as [|x rest]; [done|].
    destruct (ascii_dec x ".") as [->|Hx].
    + by destruct (span_digits rest) as [[|] ?].
    + destruct x as [[] [] [] [] [] [] [] []]; try done.
  - exact IH.
Qed.

Lemma re_search_token (pre tok rest : string) :
  no_digit pre = true → numeric_token tok rest →
  re_search_number (pre +:+ tok +:+ rest) = Some tok.
Proof.
  intros Hpre Htok. rewrite (re_search_skip _ _ Hpre).
  assert (starts_with_digit (tok +:+ rest) = true) as Hs.
  { destruct Htok as [_ [[H _] | (ip & fp & -> & H & _)]].
    - by apply all_digits_starts.
    - rewrite append_assoc. by apply all_digits_starts. }
  rewrite <- (match_number_token tok rest Htok).
  destruct (tok +:+ rest) as [|c s]; [done|].
  cbn [re_search_number]. cbn in Hs. by rewrite Hs.
Qed.

(** C3, the last part as stated: "MB 15420" has no leading numeric token,
    and the extractor returns 15420.0 for it, not 0. *)
Lemma extract_bytes_value_not_leading :
  match_number "MB 15420" = None
  ∧ starts_with_digit "MB 15420" = false
  ∧ _extract_bytes_value (VScalar (SStr "MB 15420"))
    = NFloat (Binary64.Finite 15420)
  ∧ number_is_zero (_extract_bytes_value (VScalar (SStr "MB 15420"))) = false.
Proof. repeat split; by vm_compute. Qed.

(** ** The duplicate detector *)

Section table.

Implicit Types (t : signature_table) (E : list (string * duplicate_member)).

Lemma table_append_cases s m t :
  ((s ∉ t.*1) ∧ table_append s m t = t ++ [(s, [m])])
  ∨ (∃ t1 ms t2, t = t1 ++ (s, ms) :: t2 ∧ (s ∉ t1.*1)
                 ∧ table_append s m t = t1 ++ (s, ms ++ [m]) :: t2).
Proof.
  induction t as [|[k ms] t IH]; [left; split; [apply not_elem_of_nil | done]|].
  cbn [table_append]. destruct (String.eqb_spec k s) as [->|Hne].
  - right. exists [], ms, t. split; [done|]. split; [apply not_elem_of_nil | done].
  - destruct IH as [[Hs ->] | (t1 & ms0 & t2 & -> & Hs & ->)].
    + left. split; [|done]. rewrite fmap_cons, not_elem_of_cons. done.
    + right. exists ((k, ms) :: t1), ms0, t2. split; [done|].
      split; [|done]. rewrite fmap_cons, not_elem_of_cons. done.
Qed.

Lemma build_table_snoc E e :
  build_table (E ++ [e]) = table_append e.1 e.2 (build_table E).
Proof. unfold build_table. by rewrite foldl_snoc. Qed.

Lemma members_of_snoc k E e :
  members_of k (E ++ [e])
  = members_of k E ++ (if decide (e.1 = k) then [e.2] else []).
Proof.
  unfold members_of. rewrite filter_app, fmap_app, filter_cons, filter_nil.
  by case_decide.
Qed.

Lemma members_of_elem k E m : m ∈ members_of k E → (k, m) ∈ E.
Proof.
  unfold members_of. intros ([k' m'] & -> & Hin)%list_elem_of_fmap.
  apply list_elem_of_filter in Hin as [Hk Hin]. simpl in *. by subst k'.
Qed.

Lemma table_ok_nil : table_ok [] [].
Proof.
  split; [constructor|]. split; [done|]. split; [|constructor].
  intros k. split; [by intros ?%elem_of_nil | done].
Qed.

Lemma table_ok_snoc E t e :
  StronglySorted lt ((λ x, d_id x.2) <$> (E ++ [e])) →
  table_ok E t → table_ok (E ++ [e]) (table_append e.1 e.2 t).
Proof.
  intros Hsorted (Hnd & Heq & Hkeys & Hheads).
  assert (∀ k m, (k, m) ∈ E → d_id m < d_id e.2) as Hlt.
  { intros k m Hin. rewrite fmap_app in Hsorted.
    apply (StronglySorted_app_1_elem_of _ _ _ _ _ Hsorted).
    - apply list_elem_of_fmap. by exists (k, m).
    - simpl. apply list_elem_of_singleton. done. }
  destruct e as [s m]. simpl in *.
  destruct (table_append_cases s m t)
    as [[Hs ->] | (t1 & ms0 & t2 & Ht & Hs & ->)].
  - assert (members_of s E = []) as Hnil.
    { destruct (members_of s E) eqn:Hm; [done|]. exfalso. apply Hs, Hkeys.
      by rewrite Hm. }
    split; [|split; [|split]].
    + rewrite fmap_app. apply NoDup_app. split; [done|]. split.
      * intros k Hk ->%list_elem_of_singleton. done.
      * apply NoDup_singleton.
    + rewrite !fmap_app. simpl. rewrite members_of_snoc, Hnil. simpl.
      rewrite decide_True by done. f_equal.
      rewrite Heq at 1. apply list_fmap_ext. intros i k Hk.
      rewrite members_of_snoc. simpl. rewrite decide_False, app_nil_r; [done|].
      intros ->. apply Hs. by eapply list_elem_of_lookup_2.
    + intros k. rewrite fmap_app, elem_of_app, members_of_snoc. simpl.
      rewrite list_elem_of_singleton, Hkeys. case_decide as Hk.
      * subst k. split; [|by right]. intros _. by destruct (members_of s E).
      * rewrite app_nil_r. split; [intros [?|?]; by subst | by left].
    + rewrite fmap_app. apply StronglySorted_app_2; [|done|repeat constructor].
      intros h1 h2 Hh1 ->%list_elem_of_singleton.
      apply list_elem_of_fmap in Hh1 as ([k ms] & -> & Hin).
      unfold head_id. simpl.
      rewrite Heq in Hin. apply list_elem_of_fmap in Hin as (k' & [= -> ->] & Hk').
      apply Hkeys in Hk'. destruct (members_of k' E) as [|m0 ms'] eqn:Hm; [done|].
      simpl. apply (Hlt k'). apply members_of_elem. rewrite Hm. by left.
  - subst t. rewrite !fmap_app, !fmap_cons in *. simpl in *.
    apply app_inj_1 in Heq as [H1 H2]; [| by rewrite !length_fmap].
    injection H2 as Hms0 H2.
    assert (ms0 ≠ []) as Hne.
    { rewrite Hms0. apply Hkeys. rewrite elem_of_app, elem_of_cons. auto. }
    unfold table_ok. rewrite !fmap_app, !fmap_cons. simpl.
    split; [done|]. split; [|split].
    + rewrite members_of_snoc. simpl. rewrite decide_True by done.
      rewrite <- Hms0. f_equal; [|f_equal].
      * rewrite H1 at 1. apply list_fmap_ext. intros i k Hk.
        rewrite members_of_snoc. simpl. rewrite decide_False, app_nil_r; [done|].
        intros ->. apply Hs. by eapply list_elem_of_lookup_2.
      * rewrite H2 at 1. apply list_fmap_ext. intros i k Hk.
        rewrite members_of_snoc. simpl. rewrite decide_False, app_nil_r; [done|].
        intros ->. apply NoDup_app in Hnd as (_ & _ & Hnd).
        apply NoDup_cons in Hnd as [Hnd _]. apply Hnd.
        by eapply list_elem_of_lookup_2.
    + intros k. rewrite Hkeys, members_of_snoc. simpl. case_decide as Hk.
      * subst k. rewrite <- Hms0. split; [|done]. intros _. by destruct ms0.
      * by rewrite app_nil_r.
    + assert (head_id (ms0 ++ [m]) = head_id ms0) as ->; [|done].
      unfold head_id. by destruct ms0.
Qed.

Lemma build_table_ok E :
  StronglySorted lt ((λ x, d_id x.2) <$> E) → table_ok E (build_table E).
Proof.
  induction E as [|e E IH] using rev_ind; intros Hs; [apply table_ok_nil|].
  rewrite build_table_snoc. apply table_ok_snoc; [done|]. apply IH.
  rewrite fmap_app in Hs. by apply StronglySorted_app_1_l in Hs.
Qed.

End table.

Lemma StronglySorted_seq (a n : nat) : StronglySorted lt (seq a n).
Proof.
  revert a. induction n as [|n IH]; intros a; simpl; constructor; [apply IH|].
  apply Forall_forall. intros x Hx%elem_of_seq. lia.
Qed.

Lemma StronglySorted_sublist {A} (R : relation A) (l k : list A) :
  StronglySorted R k → l `sublist_of` k → StronglySorted R l.
Proof.
  intros Hk Hsub. induction Hsub as [|x l k Hsub IH|x l k Hsub IH].
  - constructor.
  - apply StronglySorted_cons in Hk as [Hx Hk]. constructor; [by apply IH|].
    apply Forall_forall. intros y Hy.
    apply (proj1 (Forall_forall _ _) Hx). by apply (sublist_subseteq _ _ Hsub).
  - apply StronglySorted_cons in Hk as [_ Hk]. by apply IH.
Qed.

(** Positions selected from the input are increasing. *)
Lemma selected_ids_sorted {A} (P : nat * A → Prop) `{∀ x, Decision (P x)}
    (l : list A) :
  StronglySorted lt ((λ ip, ip.1 + 1) <$> filter P (enumerate l)).
Proof.
  assert (∀ k : list (nat * A),
            (λ ip, ip.1 + 1) <$> k = (λ i, i + 1) <$> k.*1) as ->
    by (intros k; by rewrite <- list_fmap_compose).
  apply (StronglySorted_fmap _ lt lt); [intros a b; simpl; lia|].
  apply (StronglySorted_sublist _ _ (enumerate l).*1).
  - rewrite enumerate_fst. apply StronglySorted_seq.
  - apply fmap_sublist, sublist_filter.
Qed.

Lemma signature_loop_eq (l : list (nat * policy)) (t : signature_table) :
  foldl signature_step t l
  = foldl (λ t e, table_append e.1 e.2 t) t
      ((λ ip, (signature_of ip.2, duplicate_info ip.1 ip.2))
         <$> filter (λ ip, is_accept ip.2) l).
Proof.
  revert t. induction l as [|[i p] l IH]; intros t; [done|].
  rewrite filter_cons. simpl. rewrite IH.
  by destruct (is_accept p).
Qed.

Lemma rule_signatures_of_eq (policies : list policy) :
  rule_signatures_of policies = build_table (accept_entries policies).
Proof. apply signature_loop_eq. Qed.

Lemma accept_entries_sorted (policies : list policy) :
  StronglySorted lt ((λ x, d_id x.2) <$> accept_entries policies).
Proof.
  unfold accept_entries. rewrite <- list_fmap_compose.
  apply (selected_ids_sorted (λ ip, is_accept ip.2)).
Qed.

Lemma members_of_ids (k : string) (l : list (nat * policy)) :
  d_id <$> members_of k
             ((λ ip, (signature_of ip.2, duplicate_info ip.1 ip.2))
                <$> filter (λ ip, is_accept ip.2) l)
  = (λ ip, ip.1 + 1)
      <$> filter (λ ip, is_accept ip.2 ∧ signature_of ip.2 = k) l.
Proof.
  unfold members_of. induction l as [|[i p] l IH]; [done|].
  rewrite !filter_cons. cbn [fst snd].
  destruct (decide (is_accept p)) as [Ha|Ha].
  - rewrite fmap_cons, filter_cons. cbn [fst snd].
    destruct (decide (signature_of p = k)) as [Hk|Hk].
    + rewrite decide_True by done. rewrite !fmap_cons. cbn [fst snd].
      by rewrite IH.
    + rewrite decide_False by tauto. done.
  - rewrite decide_False by tauto. done.
Qed.

Lemma duplicate_rules_of_eq (policies : list policy) :
  duplicate_rules_of policies
  = (λ x, {| g_signature := x.1; g_rules := x.2; g_count := length x.2 |})
      <$> filter (λ x, 1 <? length x.2) (build_table (accept_entries policies)).
Proof.
  unfold duplicate_rules_of. rewrite rule_signatures_of_eq.
  rewrite (foldl_collect (λ x, 1 <? length x.2)
             (λ x, {| g_signature := x.1; g_rules := x.2;
                      g_count := length x.2 |})); [done|].
  by intros acc [k ms].
Qed.

Lemma two_elements {A} (l : list A) (x y : A) :
  x ∈ l → y ∈ l → x ≠ y → 2 ≤ length l.
Proof.
  destruct l as [|a [|b l]]; simpl; [by intros ?%elem_of_nil| |lia].
  intros ->%list_elem_of_singleton ->%list_elem_of_singleton. done.
Qed.

(** ** The report assembler *)

Lemma percent_run (n total : nat) (w : World) :
  percent n total w = (inr (percent_text n total), w).
Proof.
  unfold percent, percent_text, py_truediv.
  destruct total as [|total]; [done|].
  change (0 <? S total) with true. cbv iota.
  destruct (Z.eqb_spec (Z.of_nat (S total)) 0) as [H|_]; [lia | done].
Qed.

Lemma generate_json_report_run (w : World) (ps : list policy) (r : Results)
    (output_file : string) :
  a_policies (self w) = Some ps → a_results (self w) = Some r →
  disk_error w = None →
  let total := length ps in
  let res := results_of ps in
  let report :=
    {| rp_audit_info := {| date := clock w; total_rules := total |};
       rp_summary :=
         {| total_rules_analyzed := total;
            all_all_rules_count := length (permissive_rules_of ps).1;
            all_all_rules_percent :=
              percent_text (length (permissive_rules_of ps).1) total;
            single_all_rules_count := length (permissive_rules_of ps).2;
            single_all_rules_percent :=
              percent_text (length (permissive_rules_of ps).2) total;
            duplicate_groups_count := length (duplicate_rules_of ps);
            duplicate_groups_percent :=
              percent_text (length (duplicate_rules_of ps)) total;
            unused_rules_count := length (unused_rules_of ps);
            unused_rules_percent :=
              percent_text (length (unused_rules_of ps)) total;
            rules_without_logging := length (no_logging (logging_of ps));
            rules_without_logging_percent :=
              percent_text (length (no_logging (logging_of ps))) total |};
       rp_detailed_results :=
         {| dr_unused_rules := unused_rules_of ps;
            dr_all_all_rules := (permissive_rules_of ps).1;
            dr_single_all_rules := (permissive_rules_of ps).2;
            dr_duplicate_rules := duplicate_rules_of ps;
            dr_without_logging := no_logging (logging_of ps) |};
       rp_recommendations := _generate_recommendations res |} in
  generate_json_report output_file w
  = (inr (Some output_file),
     {| self := {| a_data := a_data (self w); a_policies := Some ps;
                   a_results := Some res |};
        stdout := stdout w ++ ["Generating JSON audit report..."]
                           ++ ["Audit saved in: " +:+ output_file];
        clock := clock w; disk_error := None;
        disk := disk w ++ [(output_file, report)] |}).
Proof.
  destruct w as [[d pol res0] out clk derr dsk]. simpl.
  intros -> -> ->.
  unfold generate_json_report, audit_unused_rules, audit_permissive_rules,
    audit_duplicate_rules, audit_logging, store, item, getattr, set_results,
    with_self, print, now, dump, mbind, M_bind, mret, M_ret. simpl.
  unfold results_of. destruct (permissive_rules_of ps) as [aa sa]. simpl.
  repeat (rewrite percent_run; simpl). by rewrite <- app_assoc.
Qed.

(** Percent texts of the report of three rules. *)
Lemma percent_text_examples :
  percent_text 1 3 = "33.33%" ∧ percent_text 0 3 = "0.0%"
  ∧ percent_text 3 3 = "100.0%" ∧ percent_text 1 800 = "0.12%"
  ∧ percent_text 0 0 = "0%".
Proof. repeat split; by vm_compute. Qed.

(** ** The structural check on the input *)

(** C4, at the input [{"policies": []}]. The constructor prints the two
    error lines and returns with [policies] set and [results] unset; [main]
    finds the attribute [policies], goes on to [generate_json_report], and
    the first audit pass is entered and ends in an [AttributeError] on
    [self.results]. No report is written. *)
Theorem empty_rule_set_run (clock : string) (disk_error : option string) :
  let w0 := initial_world clock disk_error in
  let after_init := __init__ (Some empty_container) w0 in
  let after_main := main (Some empty_container) w0 in
  after_init.1 = inr ()
  ∧ stdout after_init.2 = ["ERROR: No policies found in JSON";
                           "STOP - Invalid or empty JSON structure"]
  ∧ a_policies (self after_init.2) = Some []
  ∧ a_results (self after_init.2) = None
  ∧ hasattr_policies after_init.2 = (inr true, after_init.2)
  ∧ (audit_unused_rules after_init.2).1 = inl (AttributeError "results")
  ∧ after_main.1 = inl (AttributeError "results")
  ∧ stdout after_main.2 = ["ERROR: No policies found in JSON";
                           "STOP - Invalid or empty JSON structure";
                           "Performing analysis on your actual data...";
                           "Generating JSON audit report..."]
  ∧ disk after_main.2 = [].
Proof. repeat split; by vm_compute. Qed.

(** * Further properties of the classifiers *)

(** X1. The wildcard boolean of a criterion is true exactly when its
    lower-cased normalized text is empty or contains "all" or "any". *)
Theorem wildcard_characterisation (f : match_field) (p : policy) :
  wildcard f p = true
  ↔ field_text f p = ""
    ∨ (∃ pre post, field_text f p = pre +:+ "all" +:+ post)
    ∨ (∃ pre post, field_text f p = pre +:+ "any" +:+ post).
Proof. apply wildcard_iff. Qed.

(** X2. Every finding is the snapshot of one input record, taken at the
    position it reports.  Its id is the 1-based position of the record;
    its name is the rule name at that position; its text fields are the
    normalized fields of the record, the bytes counter defaulting to
    "0 B".  The action stored in an unused finding is always "ACCEPT",
    that of a logging finding is the action as written. *)
Theorem findings_are_snapshots (policies : list policy) :
  (∀ f, f ∈ unused_rules_of policies →
        ∃ i p, policies !! i = Some p
               ∧ u_id f = i + 1 ∧ u_name f = rule_name i p
               ∧ u_action f = "ACCEPT"
               ∧ u_bytes f = _safe_string (get p "Bytes" (SStr "0 B"))
               ∧ u_source f = normalized p "Source"
               ∧ u_destination f = normalized p "Destination"
               ∧ u_service f = normalized p "Service")
  ∧ (∀ f, f ∈ (permissive_rules_of policies).1
          ∨ f ∈ (permissive_rules_of policies).2 →
          ∃ i p, policies !! i = Some p
                 ∧ p_id f = i + 1 ∧ p_name f = rule_name i p
                 ∧ p_source f = normalized p "Source"
                 ∧ p_destination f = normalized p "Destination"
                 ∧ p_service f = normalized p "Service"
                 ∧ p_src_any f = wildcard Source p
                 ∧ p_dst_any f = wildcard Destination p
                 ∧ p_srv_any f = wildcard Service p)
  ∧ (∀ f, f ∈ no_logging (logging_of policies)
          ∨ f ∈ with_logging (logging_of policies) →
          ∃ i p, policies !! i = Some p
                 ∧ l_id f = i + 1 ∧ l_name f = rule_name i p
                 ∧ l_log_setting f = normalized p "Log"
                 ∧ l_action f = normalized p "Action"
                 ∧ l_bytes f = _safe_string (get p "Bytes" (SStr "0 B")))
  ∧ (∀ g m, g ∈ duplicate_rules_of policies → m ∈ g_rules g →
            ∃ i p, policies !! i = Some p
                   ∧ d_id m = i + 1 ∧ d_name m = rule_name i p
                   ∧ d_bytes m = _safe_string (get p "Bytes" (SStr "0 B"))).
Proof.
  assert (∀ {B} (mk : nat * policy → B) (P : nat * policy → Prop)
            `{∀ x, Decision (P x)} (f : B),
            f ∈ mk <$> filter P (enumerate policies) →
            ∃ i p, policies !! i = Some p ∧ P (i, p) ∧ f = mk (i, p)) as Hsel.
  { intros B mk P ? f ([i p] & -> & Hin)%list_elem_of_fmap.
    apply list_elem_of_filter in Hin as [HP Hin].
    apply enumerate_lookup in Hin. by exists i, p. }
  rewrite unused_rules_of_eq, permissive_rules_of_eq, logging_of_eq,
    duplicate_rules_of_eq. simpl.
  split; [|split; [|split]].
  - intros f Hf. apply Hsel in Hf as (i & p & Hi & Hc & ->).
    exists i, p. split; [done|]. simpl in *.
    unfold is_unused in Hc. apply Is_true_true, andb_true_iff in Hc as [_ Hc].
    apply String.eqb_eq in Hc. by rewrite Hc.
  - intros f [Hf | Hf]; apply Hsel in Hf as (i & p & Hi & _ & ->);
      exists i, p; by repeat split.
  - intros f [Hf | Hf]; apply Hsel in Hf as (i & p & Hi & _ & ->);
      exists i, p; by repeat split.
  - intros g m ([k ms] & -> & Hin)%list_elem_of_fmap Hm. simpl in Hm.
    apply list_elem_of_filter in Hin as [_ Hin].
    pose proof (build_table_ok _ (accept_entries_sorted policies))
      as (_ & Heq & _).
    rewrite Heq in Hin.
    apply list_elem_of_fmap in Hin as (k' & [= -> ->] & _).
    apply members_of_elem in Hm. unfold accept_entries in Hm.
    apply (Hsel _ (λ ip, (signature_of ip.2, duplicate_info ip.1 ip.2))) in Hm
      as (i & p & Hi & _ & [= _ ->]).
    exists i, p. by repeat split.
Qed.

Lemma findings_are_snapshots_witness :
  ∃ f i p,
    f ∈ unused_rules_of [scenario_d; bare_accept]
    ∧ [scenario_d; bare_accept] !! i = Some p
    ∧ u_id f = 2 ∧ i = 1 ∧ u_name f = "Rule_2" ∧ u_action f = "ACCEPT"
    ∧ u_bytes f = "0 B" ∧ u_source f = "".
Proof.
  assert (unused_info 1 bare_accept ∈ unused_rules_of [scenario_d; bare_accept])
    as Hin by (vm_compute; apply list_elem_of_here).
  destruct (proj1 (findings_are_snapshots [scenario_d; bare_accept])
              (unused_info 1 bare_accept) Hin)
    as (i & p & Hi & Hid & Hname & Hact & Hbytes & Hsrc & _).
  exists (unused_info 1 bare_accept), i, p.
  assert (i = 1) as -> by (simpl in Hid; lia).
  injection Hi as <-.
  split; [exact Hin|]. split; [reflexivity|]. split; [exact Hid|].
  split; [reflexivity|]. split; [rewrite Hname; reflexivity|].
  split; [exact Hact|]. split; [rewrite Hbytes; reflexivity|].
  rewrite Hsrc. reflexivity.
Defined.

(** X3. Every finding sequence lists its records in input order: the
    reported positions increase strictly. *)
Theorem findings_in_input_order (policies : list policy) :
  StronglySorted lt (unused_ids (unused_rules_of policies))
  ∧ StronglySorted lt (permissive_ids (permissive_rules_of policies).1)
  ∧ StronglySorted lt (permissive_ids (permissive_rules_of policies).2)
  ∧ StronglySorted lt (logging_ids (no_logging (logging_of policies)))
  ∧ StronglySorted lt (logging_ids (with_logging (logging_of policies))).
Proof.
  rewrite unused_rules_ids.
  destruct (permissive_rules_ids policies) as [-> ->].
  destruct (logging_ids_eq policies) as [-> ->].
  repeat split; apply selected_ids_sorted.
Qed.

(** X4. The risk level of a permissive finding agrees with the booleans it
    carries: all three are true in a CRITICAL finding; in a HIGH finding at
    least one is true and at least one is false. *)
Theorem permissive_flags_consistent (policies : list policy) :
  (∀ f, f ∈ (permissive_rules_of policies).1 →
        p_risk_level f = "CRITICAL"
        ∧ p_src_any f = true ∧ p_dst_any f = true ∧ p_srv_any f = true)
  ∧ (∀ f, f ∈ (permissive_rules_of policies).2 →
          p_risk_level f = "HIGH"
          ∧ (p_src_any f || p_dst_any f || p_srv_any f) = true
          ∧ (p_src_any f && p_dst_any f && p_srv_any f) = false).
Proof.
  rewrite permissive_rules_of_eq. simpl. split.
  - intros f ([i p] & -> & Hin)%list_elem_of_fmap.
    apply list_elem_of_filter in Hin as [Hc _]. simpl in *.
    unfold is_critical, is_all_all in Hc.
    destruct (is_permissive p), (src_any p), (dst_any p), (srv_any p); done.
  - intros f ([i p] & -> & Hin)%list_elem_of_fmap.
    apply list_elem_of_filter in Hin as [Hc _]. simpl in *.
    unfold is_high, is_permissive, is_all_all in Hc.
    destruct (String.eqb (action_upper p) "ACCEPT"),
      (src_any p), (dst_any p), (srv_any p); done.
Qed.

(** X5. An ACCEPT record whose bytes counter is missing, or present with
    a false value (null, empty text, 0, empty list), is reported unused. *)
Theorem missing_counter_is_unused (policies : list policy) (i : nat)
    (p : policy) :
  policies !! i = Some p → action_upper p = "ACCEPT" →
  absent_or_false p "Bytes" →
  i + 1 ∈ unused_ids (unused_rules_of policies).
Proof.
  intros Hi Hacc Habs. rewrite unused_rules_ids.
  apply (proj2 (selected_ids is_unused policies) i p Hi).
  unfold is_unused. apply String.eqb_eq in Hacc. rewrite Hacc, andb_true_r.
  unfold absent_or_false, get in *. destruct (p !! "Bytes") as [v|]; simpl.
  - unfold _extract_bytes_value. by rewrite Habs.
  - reflexivity.
Qed.

Lemma missing_counter_is_unused_witness :
  [scenario_d; bare_accept] !! 1 = Some bare_accept
  ∧ action_upper bare_accept = "ACCEPT"
  ∧ absent_or_false bare_accept "Bytes"
  ∧ 1 + 1 ∈ unused_ids (unused_rules_of [scenario_d; bare_accept]).
Proof.
  split; [reflexivity|]. split; [reflexivity|]. split; [exact I|].
  apply (missing_counter_is_unused [scenario_d; bare_accept] 1 bare_accept);
    [reflexivity | reflexivity | exact I].
Defined.

(** X6. A record whose log setting is missing, or present with a false
    value, is reported in [no_logging], whatever its action. *)
Theorem missing_log_is_no_logging (policies : list policy) (i : nat)
    (p : policy) :
  policies !! i = Some p → absent_or_false p "Log" →
  i + 1 ∈ logging_ids (no_logging (logging_of policies)).
Proof.
  intros Hi Habs. destruct (logging_ids_eq policies) as [-> _].
  apply (proj2 (selected_ids is_no_logging policies) i p Hi).
  unfold is_no_logging, log_setting_of, absent_or_false, get in *.
  destruct (p !! "Log") as [[x|xs]|]; simpl in *; [| |done].
  - by rewrite Habs.
  - apply negb_false_iff, bool_decide_eq_true in Habs. by subst xs.
Qed.

Lemma missing_log_is_no_logging_witness :
  [scenario_d; bare_accept] !! 1 = Some bare_accept
  ∧ absent_or_false bare_accept "Log"
  ∧ 1 + 1 ∈ logging_ids (no_logging (logging_of [scenario_d; bare_accept])).
Proof.
  split; [reflexivity|]. split; [exact I|].
  apply (missing_log_is_no_logging [scenario_d; bare_accept] 1 bare_accept);
    [reflexivity | exact I].
Defined.

(** ** Counters that read as zero *)

Lemma span_digits_zero (s : string) :
  zero_digits s = true →
  only_zeros (span_digits s).1 = true ∧ zero_digits (span_digits s).2 = true.
Proof.
  induction s as [|c s IH]; [done|]. cbn [zero_digits span_digits].
  intros [Hc Hs]%andb_true_iff. destruct (Text.is_digit c) eqn:Hd.
  - destruct (span_digits s) as [ds r]. simpl in *.
    destruct (IH Hs) as [-> ->]. by rewrite Hc.
  - simpl. by rewrite Hd, Hs.
Qed.

Lemma digits_value_zero (ds : string) :
  only_zeros ds = true → digits_value 0 ds = 0%Z.
Proof.
  induction ds as [|c ds IH]; [done|]. cbn [only_zeros digits_value].
  intros [Hc Hs]%andb_true_iff. apply Ascii.eqb_eq in Hc as ->. by apply IH.
Qed.

Lemma only_zeros_app (a b : string) :
  only_zeros a = true → only_zeros b = true → only_zeros (a +:+ b) = true.
Proof.
  intros Ha Hb. induction a as [|c a IH]; [done|].
  rewrite append_cons. cbn [only_zeros] in *.
  apply andb_true_iff in Ha as [-> Ha]. by apply IH.
Qed.

Lemma float_of_text_zero (text : string) :
  zero_digits text = true → Binary64.is_zero (float_of_text text) = true.
Proof.
  intros Hz. unfold float_of_text.
  destruct (span_digits_zero text Hz) as [Hip Hrest].
  destruct (span_digits text) as [ip rest]. simpl in Hip, Hrest.
  set (fp := match rest with
             | String "." rest' => (span_digits rest').1
             | _ => EmptyString
             end).
  assert (only_zeros fp = true) as Hfp.
  { subst fp. destruct rest as [|c rest']; [done|].
    destruct (ascii_dec c ".") as [->|Hc].
    - cbn [zero_digits] in Hrest. apply andb_true_iff in Hrest as [_ Hrest].
      apply (span_digits_zero rest' Hrest).
    - destruct c as [[] [] [] [] [] [] [] []]; try done. }
  rewrite (digits_value_zero _ (only_zeros_app _ _ Hip Hfp)).
  reflexivity.
Qed.

(** X7. A counter written in ASCII characters whose first numeric token is
    made of zeros only, such as "0 KB" or "0.00 MB", reads as zero, like
    the literal "0 B". *)
Theorem zero_counter_reads_zero (v : value) (pre tok rest : string) :
  ascii_value v = true →
  py_str v = pre +:+ tok +:+ rest →
  no_digit pre = true → numeric_token tok rest → zero_digits tok = true →
  number_is_zero (_extract_bytes_value v) = true.
Proof.
  intros _ Hs Hpre Htok Hz. unfold _extract_bytes_value.
  destruct (negb (truthy v) || bool_decide (v = VScalar (SStr "0 B")));
    [done|].
  rewrite Hs, (re_search_token pre tok rest Hpre Htok). simpl.
  by apply float_of_text_zero.
Qed.

Lemma zero_counter_reads_zero_witness :
  ascii_value (VScalar (SStr "rx 0.00 MB")) = true
  ∧ py_str (VScalar (SStr "rx 0.00 MB")) = "rx " +:+ "0.00" +:+ " MB"
  ∧ number_is_zero (_extract_bytes_value (VScalar (SStr "rx 0.00 MB"))) = true.
Proof.
  split; [reflexivity|]. split; [reflexivity|].
  apply (zero_counter_reads_zero (VScalar (SStr "rx 0.00 MB"))
           "rx " "0.00" " MB");
    [reflexivity | reflexivity | reflexivity | | reflexivity].
  split; [reflexivity|]. right. exists "0", "00". repeat split; reflexivity.
Defined.

(** ** Counts *)

Lemma filter_exclusive_length {A} (P Q : A → Prop)
    `{∀ x, Decision (P x)} `{∀ x, Decision (Q x)} (l : list A) :
  (∀ x, P x → Q x → False) →
  length (filter P l) + length (filter Q l) ≤ length l.
Proof.
  intros Hex. induction l as [|x l IH]; [done|].
  rewrite !filter_cons.
  destruct (decide (P x)), (decide (Q x)); simpl; try lia.
  exfalso. by eapply Hex.
Qed.

Lemma table_append_size (s : string) (m : duplicate_member)
    (t : signature_table) :
  table_size (table_append s m t) = S (table_size t).
Proof.
  unfold table_size. induction t as [|[k ms] t IH]; [done|].
  cbn [table_append]. destruct (String.eqb k s); simpl.
  - rewrite length_app. simpl. lia.
  - rewrite IH. lia.
Qed.

Lemma build_table_size (E : list (string * duplicate_member)) :
  table_size (build_table E) = length E.
Proof.
  induction E as [|e E IH] using rev_ind; [done|].
  rewrite build_table_snoc, table_append_size, IH, length_app. simpl. lia.
Qed.

Lemma groups_size (t : signature_table) :
  2 * length (filter (λ x, 1 <? length x.2) t) ≤ table_size t.
Proof.
  unfold table_size. induction t as [|[k ms] t IH]; [done|].
  rewrite filter_cons. simpl. destruct (1 <? length ms) eqn:Hlen; simpl.
  - apply Nat.ltb_lt in Hlen. lia.
  - lia.
Qed.

(** X8. No count of the summary exceeds the number of records: the
    unused rules, the two permissive sequences together, the rules
    without logging, and twice the number of duplicate groups. *)
Theorem counts_bounded (policies : list policy) :
  length (unused_rules_of policies) ≤ length policies
  ∧ length (permissive_rules_of policies).1
    + length (permissive_rules_of policies).2 ≤ length policies
  ∧ length (no_logging (logging_of policies)) ≤ length policies
  ∧ 2 * length (duplicate_rules_of policies) ≤ length policies.
Proof.
  assert (length (enumerate policies) = length policies) as Hn
    by apply length_imap.
  rewrite unused_rules_of_eq, permissive_rules_of_eq, logging_of_eq,
    duplicate_rules_of_eq. simpl. rewrite !length_fmap, <- Hn.
  split; [apply length_filter|]. split; [|split; [apply length_filter|]].
  - apply filter_exclusive_length. intros [i p]. simpl.
    unfold is_critical, is_high.
    by destruct (is_permissive p), (is_all_all p).
  - etrans; [apply groups_size|]. rewrite build_table_size.
    unfold accept_entries. rewrite length_fmap. apply length_filter.
Qed.

(** ** Duplicate groups *)

Lemma members_ids_spec (policies : list policy) (k : string) (n : nat) :
  n ∈ d_id <$> members_of k (accept_entries policies)
  ↔ ∃ i p, n = i + 1 ∧ policies !! i = Some p
           ∧ action_upper p = "ACCEPT" ∧ signature_of p = k.
Proof.
  unfold accept_entries. rewrite members_of_ids, list_elem_of_fmap. split.
  - intros ([i p] & -> & Hin). apply list_elem_of_filter in Hin as [[Ha Hk] Hin].
    apply enumerate_lookup in Hin. exists i, p. simpl in *.
    repeat split; try done. apply String.eqb_eq. by apply Is_true_true.
  - intros (i & p & -> & Hi & Ha & Hk). exists (i, p). split; [done|].
    apply list_elem_of_filter. split; [|by apply enumerate_lookup].
    simpl. split; [|done]. apply Is_true_true. by apply String.eqb_eq.
Qed.

(** X9. A record belongs to at most one duplicate group: two groups that
    share a position are the same group. *)
Theorem duplicate_groups_disjoint (policies : list policy)
    (g1 g2 : duplicate_group) (n : nat) :
  g1 ∈ duplicate_rules_of policies → g2 ∈ duplicate_rules_of policies →
  n ∈ group_ids g1 → n ∈ group_ids g2 → g1 = g2.
Proof.
  rewrite duplicate_rules_of_eq.
  pose proof (build_table_ok _ (accept_entries_sorted policies))
    as (_ & Heq & _).
  assert (∀ g, g ∈ (λ x, {| g_signature := x.1; g_rules := x.2;
                            g_count := length x.2 |})
                   <$> filter (λ x, 1 <? length x.2)
                         (build_table (accept_entries policies)) →
               g = {| g_signature := g_signature g;
                      g_rules := members_of (g_signature g)
                                   (accept_entries policies);
                      g_count := length (members_of (g_signature g)
                                           (accept_entries policies)) |})
    as Hshape.
  { intros g ([k ms] & -> & Hin)%list_elem_of_fmap.
    apply list_elem_of_filter in Hin as [_ Hin]. rewrite Heq in Hin.
    by apply list_elem_of_fmap in Hin as (k' & [= -> ->] & _). }
  intros H1 H2 Hn1 Hn2. rewrite (Hshape g1 H1), (Hshape g2 H2) in *.
  unfold group_ids in Hn1, Hn2. simpl in Hn1, Hn2.
  apply members_ids_spec in Hn1 as (i & p & -> & Hi & _ & Hk1).
  apply members_ids_spec in Hn2 as (j & q & Hj & Hjq & _ & Hk2).
  assert (j = i) as -> by lia. rewrite Hi in Hjq. injection Hjq as <-.
  by rewrite <- Hk1, <- Hk2.
Qed.

Lemma duplicate_groups_disjoint_witness :
  ∃ g, g ∈ duplicate_rules_of [scenario_d; scenario_a; scenario_d]
       ∧ 1 ∈ group_ids g
       ∧ ∀ g', g' ∈ duplicate_rules_of [scenario_d; scenario_a; scenario_d] →
               1 ∈ group_ids g' → g = g'.
Proof.
  eexists. split; [apply list_elem_of_here|]. split; [apply list_elem_of_here|].
  intros g' Hg' Hn.
  apply (duplicate_groups_disjoint [scenario_d; scenario_a; scenario_d]
           _ g' 1); [apply list_elem_of_here | exact Hg' |
                     apply list_elem_of_here | exact Hn].
Defined.

(** ** Recommendations *)

(** X10. The recommendation list is empty exactly when no category has a
    finding; it never has more than five entries, and no two entries share
    priority and category. *)
Theorem recommendations_empty_iff (r : Results) :
  (_generate_recommendations r = [] ↔ ∀ k, kind_count r k = 0)
  ∧ length (_generate_recommendations r) ≤ 5
  ∧ NoDup (rec_key <$> _generate_recommendations r).
Proof.
  destruct (recommendations_eq r) as (e & He & ->).
  split; [|split].
  - split.
    + intros Hnil%fmap_nil_inv k.
      destruct (kind_count r k) eqn:Hk; [done|]. exfalso.
      assert (k ∈ filter (λ k, 0 < kind_count r k) evaluation_order) as Hin.
      { apply list_elem_of_filter. split; [lia|].
        apply elem_of_evaluation_order. }
      rewrite Hnil in Hin. by apply elem_of_nil in Hin.
    + intros Hz. unfold evaluation_order. rewrite !filter_cons, filter_nil.
      repeat (rewrite decide_False by (rewrite Hz; lia)). done.
  - rewrite length_fmap. etrans; [apply length_filter|]. done.
  - rewrite <- list_fmap_compose.
    rewrite (list_fmap_ext (rec_key ∘ e) kind_key
               (filter (λ k, 0 < kind_count r k) evaluation_order))
      by (intros i k _; apply He).
    apply (sublist_NoDup _ (kind_key <$> evaluation_order)).
    + unfold evaluation_order. simpl. repeat constructor;
        rewrite ?elem_of_cons, ?elem_of_nil; intros H;
        repeat destruct H as [H | H]; first [done | discriminate H].
    + apply fmap_sublist, sublist_filter.
Qed.

(** ** The report assembler, whatever the disk does *)

Lemma generate_json_report_eq (w : World) (ps : list policy) (r : Results)
    (output_file : string) :
  a_policies (self w) = Some ps → a_results (self w) = Some r →
  generate_json_report output_file w
  = dump output_file (report_of (clock w) ps) (audited w ps).
Proof.
  destruct w as [[d pol res0] out clk derr dsk]. simpl.
  intros -> ->.
  unfold generate_json_report, audit_unused_rules, audit_permissive_rules,
    audit_duplicate_rules, audit_logging, store, item, getattr, set_results,
    with_self, print, now, mbind, M_bind, mret, M_ret. simpl.
  unfold report_of, audited, results_of.
  destruct (permissive_rules_of ps) as [aa sa]. simpl.
  repeat (rewrite percent_run; simpl). reflexivity.
Qed.

Lemma generate_json_report_written (w : World) (ps : list policy)
    (r : Results) (output_file : string) :
  a_policies (self w) = Some ps → a_results (self w) = Some r →
  disk_error w = None →
  generate_json_report output_file w
  = (inr (Some output_file), written w ps output_file).
Proof.
  intros Hps Hr Hd.
  rewrite (generate_json_report_eq w ps r output_file Hps Hr).
  unfold dump, written. cbn [audited disk_error]. rewrite Hd.
  cbv [mbind M_bind mret M_ret print]. cbn [self stdout clock disk_error disk].
  unfold audited. cbn [self stdout clock disk_error disk].
  by rewrite <- app_assoc.
Qed.

(** X11. The audits overwrite whatever the results map held, so the
    report depends on the rules and the clock only: a second run, at any
    later time, writes a report that differs from the first in its date at
    most, and both times the results map ends as the findings of the
    rules. *)
Theorem report_rerun (w : World) (ps : list policy) (r : Results)
    (output_file later : string) :
  a_policies (self w) = Some ps → a_results (self w) = Some r →
  disk_error w = None →
  ∃ w1 w2,
    generate_json_report output_file w = (inr (Some output_file), w1)
    ∧ generate_json_report output_file (at_time later w1)
      = (inr (Some output_file), w2)
    ∧ a_results (self w1) = Some (results_of ps)
    ∧ a_results (self w2) = Some (results_of ps)
    ∧ disk w2 = disk w ++ [(output_file, report_of (clock w) ps);
                           (output_file, report_of later ps)].
Proof.
  intros Hps Hr Hd. exists (written w ps output_file),
    (written (at_time later (written w ps output_file)) ps output_file).
  rewrite (generate_json_report_written w ps r output_file Hps Hr Hd).
  rewrite (generate_json_report_written
             (at_time later (written w ps output_file)) ps
             (results_of ps) output_file eq_refl eq_refl eq_refl).
  repeat (split; [reflexivity|]). simpl. by rewrite <- app_assoc.
Qed.

Lemma report_rerun_witness :
  a_policies (self three_rules_world) = Some [scenario_a; scenario_d; scenario_d]
  ∧ a_results (self three_rules_world) = Some empty_results
  ∧ disk_error three_rules_world = None
  ∧ ∃ w1 w2,
      generate_json_report "a.json" three_rules_world = (inr (Some "a.json"), w1)
      ∧ generate_json_report "a.json" (at_time "2024-01-02 00:00:00" w1)
        = (inr (Some "a.json"), w2)
      ∧ length (disk w2) = 2.
Proof.
  split; [reflexivity|]. split; [reflexivity|]. split; [reflexivity|].
  destruct (report_rerun three_rules_world [scenario_a; scenario_d; scenario_d]
              empty_results "a.json" "2024-01-02 00:00:00"
              eq_refl eq_refl eq_refl)
    as (w1 & w2 & H1 & H2 & _ & _ & Hd).
  exists w1, w2. split; [exact H1|]. split; [exact H2|]. by rewrite Hd.
Defined.

(** X12. When the file cannot be written the run returns [None], prints
    the error after the progress line, leaves the disk as it was, and the
    findings stay in the results map. *)
Theorem report_disk_failure (w : World) (ps : list policy) (r : Results)
    (output_file e : string) :
  a_policies (self w) = Some ps → a_results (self w) = Some r →
  disk_error w = Some e →
  ∃ w',
    generate_json_report output_file w = (inr None, w')
    ∧ disk w' = disk w
    ∧ stdout w' = stdout w ++ ["Generating JSON audit report...";
                               "Error saving audit report: " +:+ e]
    ∧ a_results (self w') = Some (results_of ps).
Proof.
  intros Hps Hr Hd.
  rewrite (generate_json_report_eq w ps r output_file Hps Hr).
  unfold dump. cbn [audited disk_error]. rewrite Hd.
  cbv [mbind M_bind mret M_ret print]. cbn [self stdout clock disk_error disk].
  eexists. split; [reflexivity|]. unfold audited.
  cbn [self stdout clock disk_error disk a_results].
  split; [reflexivity|]. split; [|reflexivity]. by rewrite <- app_assoc.
Qed.

Lemma report_disk_failure_witness :
  a_policies (self read_only_world) = Some [scenario_a; scenario_d; scenario_d]
  ∧ a_results (self read_only_world) = Some empty_results
  ∧ disk_error read_only_world = Some "[Errno 13] Permission denied"
  ∧ ∃ w', generate_json_report "a.json" read_only_world = (inr None, w')
          ∧ disk w' = [].
Proof.
  split; [reflexivity|]. split; [reflexivity|]. split; [reflexivity|].
  destruct (report_disk_failure read_only_world
              [scenario_a; scenario_d; scenario_d] empty_results "a.json"
              "[Errno 13] Permission denied" eq_refl eq_refl eq_refl)
    as (w' & H1 & Hd & _).
  exists w'. split; [exact H1 | exact Hd].
Defined.

(** ** The constructor *)

Lemma unwrapped_eq (d : json_doc) :
  match d with
  | JList ps => ps
  | JDict m => default (default [] (m !! "Policy")) (m !! "policies")
  end = unwrapped d.
Proof. destruct d as [ps|m]; [done|]. simpl. by destruct (m !! "policies"). Qed.

Lemma init_run (d : json_doc) (w : World) :
  doc_truthy d = true →
  __init__ (Some d) w
  = if bool_decide (unwrapped d = [])
    then (inr (),
          {| self := {| a_data := Some d; a_policies := Some (unwrapped d);
                        a_results := a_results (self w) |};
             stdout := stdout w ++ ["ERROR: No policies found in JSON";
                                    "STOP - Invalid or empty JSON structure"];
             clock := clock w; disk_error := disk_error w; disk := disk w |})
    else (inr (),
          {| self := initialised d; stdout := stdout w; clock := clock w;
             disk_error := disk_error w; disk := disk w |}).
Proof.
  intros Hd. destruct w as [[d0 pol res0] out clk derr dsk].
  unfold __init__. rewrite Hd.
  cbv [mbind M_bind mret M_ret set_data with_self getattr]. 
  cbn [self stdout clock disk_error disk a_data a_policies a_results].
  rewrite <- (unwrapped_eq d).
  destruct d as [ps|m];
    cbv [set_policies with_self];
    cbn [self stdout clock disk_error disk a_data a_policies a_results];
    case_bool_decide; cbv [print set_results with_self];
    cbn [self stdout clock disk_error disk a_data a_policies a_results];
    rewrite <- ?app_assoc; reflexivity.
Qed.

(** X13. On a document whose rule sequence is not empty the constructor
    prints nothing, stores the document and its rule sequence, which is the
    list itself or else the value of the key "policies" or else of the key
    "Policy", and creates an empty results map. *)
Theorem init_on_rules (d : json_doc) (w : World) :
  doc_truthy d = true → unwrapped d ≠ [] →
  ∃ w', __init__ (Some d) w = (inr (), w')
        ∧ self w' = initialised d ∧ stdout w' = stdout w ∧ disk w' = disk w
        ∧ (∀ ps, d = JList ps → a_policies (self w') = Some ps)
        ∧ (∀ m ps, d = JDict m → m !! "policies" = Some ps →
                   a_policies (self w') = Some ps)
        ∧ (∀ m ps, d = JDict m → m !! "policies" = None →
                   m !! "Policy" = Some ps → a_policies (self w') = Some ps).
Proof.
  intros Hd Hne. rewrite (init_run d w Hd), bool_decide_eq_false_2 by done.
  eexists. split; [reflexivity|]. cbn [self stdout disk].
  repeat (split; [reflexivity|]). split; [|split].
  - by intros ps ->.
  - intros m ps -> Hm. simpl. by rewrite Hm.
  - intros m ps -> Hm1 Hm2. simpl. by rewrite Hm1, Hm2.
Qed.

Lemma init_on_rules_witness :
  doc_truthy (JDict {[ "Policy" := [scenario_a] ]}) = true
  ∧ unwrapped (JDict {[ "Policy" := [scenario_a] ]}) ≠ []
  ∧ ∃ w', __init__ (Some (JDict {[ "Policy" := [scenario_a] ]}))
            (initial_world "" None) = (inr (), w')
          ∧ a_policies (self w') = Some [scenario_a].
Proof.
  assert (doc_truthy (JDict {[ "Policy" := [scenario_a] ]}) = true) as Hd
    by reflexivity.
  split; [exact Hd|]. split; [discriminate|].
  destruct (init_on_rules (JDict {[ "Policy" := [scenario_a] ]})
              (initial_world "" None) Hd)
    as (w' & Hrun & _ & _ & _ & _ & _ & Hp); [discriminate|].
  exists w'. split; [exact Hrun|]. by apply (Hp {[ "Policy" := [scenario_a] ]}).
Defined.

(** X14. Called on a fresh object with no document, or with an empty list
    or an empty object, the constructor raises [AttributeError] on
    [self.data] before it prints anything. *)
Theorem init_without_document (json_data : option json_doc) (w : World) :
  a_data (self w) = None → no_document json_data →
  __init__ json_data w = (inl (AttributeError "data"), w).
Proof.
  intros Hdata Hno. unfold __init__, no_document in *.
  assert ((match json_data with
           | Some d => if doc_truthy d then set_data d else mret ()
           | None => mret ()
           end : M unit) = mret ()) as ->.
  { destruct json_data as [d|]; [by rewrite Hno | done]. }
  cbv [mbind M_bind mret M_ret getattr]. by rewrite Hdata.
Qed.

Lemma init_without_document_witness :
  a_data (self (initial_world "" None)) = None
  ∧ no_document (Some (JList []))
  ∧ __init__ (Some (JList [])) (initial_world "" None)
    = (inl (AttributeError "data"), initial_world "" None).
Proof.
  split; [reflexivity|]. split; [reflexivity|].
  apply (init_without_document (Some (JList [])) (initial_world "" None));
    reflexivity.
Defined.

(** ** The entry point *)

Lemma main_on_empty (d : json_doc) (clk : string) (derr : option string) :
  doc_truthy d = true → unwrapped d = [] →
  main (Some d) (initial_world clk derr)
  = (inl (AttributeError "results"),
     {| self := {| a_data := Some d; a_policies := Some (unwrapped d);
                   a_results := None |};
        stdout := ["ERROR: No policies found in JSON";
                   "STOP - Invalid or empty JSON structure";
                   "Performing analysis on your actual data...";
                   "Generating JSON audit report..."];
        clock := clk; disk_error := derr; disk := [] |}).
Proof.
  intros Hd Hnil. unfold main. cbn [from_option]. rewrite Hd.
  cbv [negb]. unfold mbind, M_bind at 1.
  rewrite (init_run d _ Hd), bool_decide_eq_true_2 by done.
  cbv [mbind M_bind hasattr_policies print generate_json_report
         audit_unused_rules getattr store].
  cbn [self stdout clock disk_error disk a_data a_policies
         a_results initial_world new_auditor].
  rewrite bool_decide_eq_true_2 by (by eexists). reflexivity.
Qed.

Lemma main_on_rules (d : json_doc) (clk : string) (derr : option string) :
  doc_truthy d = true → unwrapped d ≠ [] →
  main (Some d) (initial_world clk derr)
  = (inr (),
     {| self := {| a_data := Some d; a_policies := Some (unwrapped d);
                   a_results := Some (results_of (unwrapped d)) |};
        stdout :=
          ["Performing analysis on your actual data...";
           "Generating JSON audit report...";
           match derr with
           | None => "Audit saved in: " +:+ report_file
           | Some e => "Error saving audit report: " +:+ e
           end;
           match derr with
           | None => success_line report_file
           | Some _ =>
               "FAILED to generate JSON report, please check the logs for errors."
           end];
        clock := clk; disk_error := derr;
        disk := match derr with
                | None => [(report_file, report_of clk (unwrapped d))]
                | Some _ => []
                end |}).
Proof.
  intros Hd Hne. unfold main. cbn [from_option]. rewrite Hd.
  cbv [negb]. unfold mbind, M_bind at 1.
  rewrite (init_run d _ Hd), bool_decide_eq_false_2 by done.
  unfold mbind, M_bind at 1. unfold hasattr_policies at 1.
  cbn [self a_policies initialised].
  rewrite bool_decide_eq_true_2 by (by eexists). cbv [negb].
  unfold mbind, M_bind at 1. unfold print at 1.
  cbn [self stdout clock disk_error disk initial_world].
  unfold mbind, M_bind at 1.
  erewrite generate_json_report_eq; [|reflexivity|reflexivity].
  unfold dump, audited. cbn [self stdout clock disk_error disk a_data].
  destruct derr as [e|]; cbv [mbind M_bind mret M_ret print];
    cbn [self stdout clock disk_error disk]; reflexivity.
Qed.

(** X15. What a run of [main] does, by the document it is given: with no
    document it prints the fatal line only; with a document whose rule
    sequence is empty it ends in [AttributeError] on [self.results] and
    writes nothing; otherwise it never raises, and writes exactly one
    report, over all the rules, when the disk accepts the file, and none
    when it does not. *)
Theorem main_outcome (user_data : option json_doc) (clk : string)
    (derr : option string) :
  let w0 := initial_world clk derr in
  let out := main user_data w0 in
  (no_document user_data →
   out.1 = inr () ∧ stdout out.2 = [fatal_line] ∧ disk out.2 = [])
  ∧ (∀ d, user_data = Some d → doc_truthy d = true → unwrapped d = [] →
          out.1 = inl (AttributeError "results") ∧ disk out.2 = [])
  ∧ (∀ d, user_data = Some d → doc_truthy d = true → unwrapped d ≠ [] →
          out.1 = inr ()
          ∧ a_results (self out.2) = Some (results_of (unwrapped d))
          ∧ match derr with
            | None =>
                disk out.2 = [(report_file, report_of clk (unwrapped d))]
                ∧ stdout out.2
                  = ["Performing analysis on your actual data...";
                     "Generating JSON audit report...";
                     "Audit saved in: " +:+ report_file;
                     success_line report_file]
            | Some e =>
                disk out.2 = []
                ∧ stdout out.2
                  = ["Performing analysis on your actual data...";
                     "Generating JSON audit report...";
                     "Error saving audit report: " +:+ e;
                     "FAILED to generate JSON report, please check the logs for errors."]
            end).
Proof.
  intros w0 out. subst out w0. split; [|split].
  - intros Hno. unfold main.
    assert (from_option doc_truthy false user_data = false) as ->.
    { destruct user_data as [d|]; [exact Hno | done]. }
    done.
  - intros d -> Hd Hnil. by rewrite (main_on_empty d clk derr Hd Hnil).
  - intros d -> Hd Hne. rewrite (main_on_rules d clk derr Hd Hne).
    by destruct derr.
Qed.

Lemma main_outcome_witness :
  doc_truthy (JList [scenario_a; scenario_d]) = true
  ∧ unwrapped (JList [scenario_a; scenario_d]) ≠ []
  ∧ (main (Some (JList [scenario_a; scenario_d]))
       (initial_world "2024-01-01 00:00:00" None)).1 = inr ()
  ∧ no_document (Some (JDict ∅))
  ∧ stdout (main (Some (JDict ∅)) (initial_world "" None)).2 = [fatal_line].
Proof.
  split; [reflexivity|]. split; [discriminate|]. split.
  - apply (proj2 (proj2 (main_outcome (Some (JList [scenario_a; scenario_d]))
                           "2024-01-01 00:00:00" None))
             (JList [scenario_a; scenario_d]));
      [reflexivity | reflexivity | discriminate].
  - split; [reflexivity|].
    apply (proj1 (main_outcome (Some (JDict ∅)) "" None)). reflexivity.
Defined.

(** ** Counters that read as non-zero *)

Section rounding.

Local Open Scope Q_scope.

Lemma pow2_pos (e : Z) : 0 < Binary64.pow2 e.
Proof. by apply Qpower_0_lt. Qed.

Lemma pow2_mono (a b : Z) : (a <= b)%Z → Binary64.pow2 a <= Binary64.pow2 b.
Proof. intros H. by apply Qpower_le_compat_l. Qed.

Lemma pow2_inject (a : Z) : (0 <= a)%Z → Binary64.pow2 a == inject_Z (2 ^ a).
Proof. intros H. unfold Binary64.pow2. by rewrite Zpower_Qpower. Qed.

Lemma ilog2_le (q : Q) : 0 < q → Binary64.pow2 (Binary64.ilog2 q) <= q.
Proof.
  intros Hq. unfold Binary64.ilog2.
  destruct (Qle_bool _ q) eqn:Hb; [by apply Qle_bool_iff|]. clear Hb.
  destruct q as [n d]. cbn [Qnum Qden].
  assert (0 < n)%Z as Hn.
  { unfold Qlt in Hq. simpl in Hq. lia. }
  set (a := Z.log2 n). set (b := Z.log2 (Z.pos d)).
  assert (0 <= a)%Z as Ha by apply Z.log2_nonneg.
  assert (0 <= b)%Z as Hb by apply Z.log2_nonneg.
  destruct (Z.log2_spec n Hn) as [Hlo _].
  destruct (Z.log2_spec (Z.pos d) eq_refl) as [_ Hhi].
  fold a in Hlo. fold b in Hhi.
  replace (a - b - 1)%Z with (a - (b + 1))%Z by lia.
  unfold Binary64.pow2 at 1. rewrite Qpower_minus by done.
  fold (Binary64.pow2 a). fold (Binary64.pow2 (b + 1)).
  rewrite (pow2_inject a), (pow2_inject (b + 1)) by lia.
  rewrite (Qmake_Qdiv n d).
  assert (0 < inject_Z (2 ^ (b + 1))) as HR.
  { rewrite <- pow2_inject by lia. apply pow2_pos. }
  apply Qle_shift_div_l; [done|].
  setoid_replace (inject_Z (2 ^ a) / inject_Z (2 ^ (b + 1)) * inject_Z (Z.pos d))
    with (inject_Z (2 ^ a) * inject_Z (Z.pos d) / inject_Z (2 ^ (b + 1)))
    using relation Qeq
    by (field; intros H0; rewrite H0 in HR; by apply Qlt_irrefl in HR).
  apply Qle_shift_div_r; [done|].
  apply Qmult_le_compat_nonneg.
  - split; [|by rewrite <- Zle_Qle]. rewrite <- pow2_inject by done.
    apply Qlt_le_weak, pow2_pos.
  - split; [done|]. rewrite <- Zle_Qle. replace (b + 1)%Z with (Z.succ b) by lia. lia.
Qed.

Lemma round_half_even_floor (q : Q) : (Qfloor q <= Binary64.round_half_even q)%Z.
Proof.
  unfold Binary64.round_half_even.
  destruct (_ ?= _); [destruct (Z.even _)| |]; lia.
Qed.

Lemma round64_nonzero (q : Q) :
  1 <= q → Binary64.is_zero (Binary64.round64 q) = false.
Proof.
  intros Hq. assert (0 < q) as Hpos by (eapply Qlt_le_trans; [|exact Hq]; done).
  unfold Binary64.round64.
  destruct (Qle_bool q 0) eqn:Hb.
  { apply Qle_bool_iff in Hb. exfalso. by apply (Qlt_not_le _ _ Hpos). }
  clear Hb. cbv zeta.
  set (e := Z.max (Binary64.ilog2 q - 52) (-1074)).
  assert (Binary64.pow2 e <= q) as He.
  { subst e. destruct (Z.max_spec (Binary64.ilog2 q - 52) (-1074))
      as [[_ ->] | [_ ->]].
    - apply (Qle_trans _ (Binary64.pow2 0));
        [apply pow2_mono; lia | exact Hq].
    - apply (Qle_trans _ (Binary64.pow2 (Binary64.ilog2 q)));
        [apply pow2_mono; lia | by apply ilog2_le]. }
  assert (1 <= Binary64.round_half_even (q / Binary64.pow2 e))%Z as Hm.
  { etrans; [|apply round_half_even_floor].
    rewrite <- (Qfloor_Z 1). apply Qfloor_resp_le.
    apply Qle_shift_div_l; [apply pow2_pos|]. by rewrite Qmult_1_l. }
  set (m := Binary64.round_half_even (q / Binary64.pow2 e)) in *.
  destruct (Qle_bool _ _); [done|]. cbn [Binary64.is_zero].
  destruct (Qeq_bool _ 0) eqn:Hz; [|done]. exfalso.
  apply Qeq_bool_iff in Hz. rewrite Qred_correct in Hz.
  assert (0 < inject_Z m * Binary64.pow2 e) as Hv.
  { apply Qmult_lt_0_compat; [|apply pow2_pos].
    change (inject_Z 0 < inject_Z m). rewrite <- Zlt_Qlt. lia. }
  rewrite Hz in Hv. by apply Qlt_irrefl in Hv.
Qed.

End rounding.

Lemma digits_value_app (acc : Z) (a b : string) :
  digits_value acc (a +:+ b) = digits_value (digits_value acc a) b.
Proof.
  revert acc. induction a as [|c a IH]; intros acc; [done|].
  rewrite append_cons. cbn [digits_value]. apply IH.
Qed.

Lemma digits_value_lower (acc : Z) (ds : string) :
  (0 ≤ acc → acc * 10 ^ Z.of_nat (String.length ds) ≤ digits_value acc ds)%Z.
Proof.
  revert acc. induction ds as [|c ds IH]; intros acc Hacc.
  - simpl. lia.
  - cbn [digits_value String.length]. rewrite Nat2Z.inj_succ, Z.pow_succ_r by lia.
    etrans; [|apply IH; lia].
    assert (0 ≤ 10 ^ Z.of_nat (String.length ds))%Z
      by (apply Z.pow_nonneg; lia).
    nia.
Qed.

Lemma digits_value_span (acc : Z) (s : string) :
  (0 ≤ acc)%Z → only_zeros (span_digits s).1 = false →
  (1 ≤ digits_value acc (span_digits s).1)%Z.
Proof.
  revert acc. induction s as [|c s IH]; intros acc Hacc; [done|].
  cbn [span_digits]. destruct (Text.is_digit c) eqn:Hd; [|done].
  destruct (span_digits s) as [ds rest]. cbn [fst only_zeros digits_value] in *.
  destruct (Ascii.eqb c "0") eqn:Hc; simpl.
  - intros Hz. apply IH; [|done]. lia.
  - intros _. apply Ascii.eqb_neq in Hc.
    assert (Text.code c ≠ 48) as Hne.
    { intros H. apply Hc. rewrite <- (ascii_nat_embedding c).
      unfold Text.code in H. by rewrite H. }
    unfold Text.is_digit in Hd. apply andb_true_iff in Hd as [Hlo _].
    apply Nat.leb_le in Hlo.
    etrans; [|apply digits_value_lower; lia].
    assert (0 < 10 ^ Z.of_nat (String.length ds))%Z
      by (apply Z.pow_pos_nonneg; lia).
    nia.
Qed.

Lemma float_of_text_nonzero (text : string) :
  only_zeros (integer_part text) = false →
  Binary64.is_zero (float_of_text text) = false.
Proof.
  unfold integer_part, float_of_text. intros Hz.
  pose proof (digits_value_span 0 text (Z.le_refl 0) Hz) as Hip.
  destruct (span_digits text) as [ip rest]. cbn [fst] in Hip.
  set (fp := match rest with
             | String "." rest' => (span_digits rest').1
             | _ => EmptyString
             end).
  apply round64_nonzero.
  rewrite digits_value_app.
  set (n := Z.of_nat (String.length fp)).
  assert (0 ≤ n)%Z as Hn by lia.
  assert (Binary64.pow10 n == inject_Z (10 ^ n))%Q as ->.
  { unfold Binary64.pow10. by rewrite Zpower_Qpower. }
  assert (0 < 10 ^ n)%Z as Hpow by (apply Z.pow_pos_nonneg; lia).
  apply Qle_shift_div_l.
  - change (inject_Z 0 < inject_Z (10 ^ n))%Q. by rewrite <- Zlt_Qlt.
  - rewrite Qmult_1_l, <- Zle_Qle.
    etrans; [|apply digits_value_lower; lia]. fold n. nia.
Qed.

(** X16. A counter written in ASCII characters whose first numeric token
    has a non-zero digit before its dot, such as "15420 MB" or "1.5 GB",
    never reads as zero, whatever the size of the number; a record that
    carries it is not reported unused. *)
Theorem counted_traffic_is_used (v : value) (pre tok rest : string) :
  ascii_value v = true →
  py_str v = pre +:+ tok +:+ rest →
  no_digit pre = true → numeric_token tok rest →
  only_zeros (integer_part tok) = false →
  number_is_zero (_extract_bytes_value v) = false
  ∧ ∀ policies i p,
      policies !! i = Some p → p !! "Bytes" = Some v →
      i + 1 ∉ unused_ids (unused_rules_of policies).
Proof.
  intros _ Hs Hpre Htok Hz.
  pose proof (re_search_token pre tok rest Hpre Htok) as Hre.
  rewrite <- Hs in Hre.
  assert (number_is_zero (_extract_bytes_value v) = false) as Hv.
  { unfold _extract_bytes_value.
    destruct (negb (truthy v) || bool_decide (v = VScalar (SStr "0 B")))
      eqn:Hguard.
    - exfalso. apply orb_true_iff in Hguard as [Hf | Heq].
      + apply negb_true_iff in Hf.
        destruct v as [[|[]|z|s]|xs]; simpl in Hf; try done.
        * apply negb_false_iff, Z.eqb_eq in Hf as ->.
          injection Hre as <-. done.
        * apply negb_false_iff, String.eqb_eq in Hf as ->. done.
        * apply negb_false_iff, bool_decide_eq_true in Hf as ->. done.
      + apply bool_decide_eq_true in Heq as ->. injection Hre as <-. done.
    - rewrite Hre. simpl. by apply float_of_text_nonzero. }
  split; [exact Hv|]. intros policies i p Hi Hb.
  rewrite unused_rules_ids.
  rewrite (proj2 (selected_ids is_unused policies) i p Hi).
  unfold is_unused, get. rewrite Hb. simpl. by rewrite Hv.
Qed.

Lemma counted_traffic_is_used_witness :
  ascii_value (VScalar (SStr "rx 1.5 GB")) = true
  ∧ py_str (VScalar (SStr "rx 1.5 GB")) = "rx " +:+ "1.5" +:+ " GB"
  ∧ number_is_zero (_extract_bytes_value (VScalar (SStr "rx 1.5 GB"))) = false.
Proof.
  split; [reflexivity|]. split; [reflexivity|].
  apply (counted_traffic_is_used (VScalar (SStr "rx 1.5 GB"))
           "rx " "1.5" " GB");
    [reflexivity | reflexivity | reflexivity | | reflexivity].
  split; [reflexivity|]. right. exists "1", "5". repeat split; reflexivity.
Defined.

(** ** Rule names *)

Lemma of_Z_inj (a b : Z) : Text.of_Z a = Text.of_Z b → a = b.
Proof.
  unfold Text.of_Z. intros H.
  assert (∀ z, NilZero.int_of_string (NilZero.string_of_int (Z.to_int z))
               = Some (Z.to_int z)) as Hrt.
  { intros z. apply NilZero.isi; destruct z as [|p|p]; simpl; try done;
      intros [= Hp]; by apply (DecimalPos.Unsigned.to_uint_nonnil p). }
  apply DecimalZ.to_int_inj.
  apply (inj Some). by rewrite <- !Hrt, H.
Qed.

(** X17. The name of a finding.  A record without the key "Policy" is
    named "Rule_" followed by the decimal form of its 1-based position, so
    two such records never share a name; a record whose "Policy" is
    present but false (null, empty text, 0, empty list) is named by the
    empty text instead. *)
Theorem default_names_distinct (i j : nat) (p q : policy) :
  (p !! "Policy" = None → rule_name i p = "Rule_" +:+ Text.of_nat (i + 1))
  ∧ (p !! "Policy" = None → q !! "Policy" = None → i ≠ j →
     rule_name i p ≠ rule_name j q)
  ∧ (∀ v, p !! "Policy" = Some v → truthy v = false → rule_name i p = "").
Proof.
  assert (∀ k r, r !! "Policy" = None
                 → rule_name k r = "Rule_" +:+ Text.of_nat (k + 1)) as Hname.
  { intros k r Hr. unfold rule_name, get. rewrite Hr. simpl.
    by rewrite !append_cons. }
  split; [apply Hname|]. split.
  - intros Hp Hq Hij. rewrite (Hname i p Hp), (Hname j q Hq).
    rewrite !append_cons. intros [= H]. apply of_Z_inj in H. lia.
  - intros v Hv Hf. unfold rule_name, get. rewrite Hv. simpl.
    destruct v as [x|xs]; simpl in *; [by rewrite Hf|].
    apply negb_false_iff, bool_decide_eq_true in Hf. by subst xs.
Qed.

Lemma default_names_distinct_witness :
  bare_accept !! "Policy" = None
  ∧ rule_name 0 bare_accept = "Rule_1"
  ∧ rule_name 11 bare_accept = "Rule_12"
  ∧ rule_name 0 bare_accept ≠ rule_name 1 bare_accept.
Proof.
  split; [reflexivity|]. split; [|split].
  - rewrite (proj1 (default_names_distinct 0 0 bare_accept bare_accept)
               eq_refl). reflexivity.
  - rewrite (proj1 (default_names_distinct 11 0 bare_accept bare_accept)
               eq_refl). reflexivity.
  - apply (proj1 (proj2 (default_names_distinct 0 1 bare_accept bare_accept)));
      [reflexivity | reflexivity | discriminate].
Defined.

(** ** The written report agrees with itself *)

(** X18. In the report that a run writes, the three parts agree: for every
    category the count of the summary is the number of entries of the
    detailed results, and the recommendations are exactly the categories
    whose count is positive, each with that count. *)
Theorem report_parts_agree (w : World) (ps : list policy) (r : Results)
    (output_file : string) :
  a_policies (self w) = Some ps → a_results (self w) = Some r →
  disk_error w = None →
  ∃ w' rep,
    generate_json_report output_file w = (inr (Some output_file), w')
    ∧ last (disk w') = Some (output_file, rep)
    ∧ total_rules (rp_audit_info rep) = length ps
    ∧ (∀ k, summary_count (rp_summary rep) k
            = detail_count (rp_detailed_results rep) k)
    ∧ (∀ x, x ∈ rp_recommendations rep →
            ∃ k, rec_key x = kind_key k
                 ∧ count x = summary_count (rp_summary rep) k
                 ∧ 0 < count x)
    ∧ (∀ k, 0 < summary_count (rp_summary rep) k →
            ∃ x, x ∈ rp_recommendations rep ∧ rec_key x = kind_key k).
Proof.
  intros Hps Hr Hd.
  exists (written w ps output_file), (report_of (clock w) ps).
  split; [by apply (generate_json_report_written w ps r)|].
  split; [unfold written; cbn [disk]; apply last_snoc|].
  split; [reflexivity|].
  assert (∀ k, summary_count (rp_summary (report_of (clock w) ps)) k
               = kind_count (results_of ps) k) as Hk by (by intros []).
  split; [by intros []|].
  cbn [rp_recommendations report_of].
  destruct (recommendations_eq (results_of ps)) as (e & He & ->).
  split.
  - intros x (k & -> & Hin)%list_elem_of_fmap.
    apply list_elem_of_filter in Hin as [Hpos _].
    destruct (He k) as [Hkey Hcount]. exists k.
    rewrite Hk, Hcount. done.
  - intros k Hpos. exists (e k). split; [|apply He].
    apply list_elem_of_fmap. exists k. split; [done|].
    apply list_elem_of_filter. rewrite <- Hk.
    split; [done | apply elem_of_evaluation_order].
Qed.

Lemma report_parts_agree_witness :
  a_policies (self three_rules_world) = Some [scenario_a; scenario_d; scenario_d]
  ∧ a_results (self three_rules_world) = Some empty_results
  ∧ disk_error three_rules_world = None
  ∧ ∃ w' rep,
      generate_json_report "a.json" three_rules_world = (inr (Some "a.json"), w')
      ∧ last (disk w') = Some ("a.json", rep)
      ∧ total_rules (rp_audit_info rep) = 3.
Proof.
  split; [reflexivity|]. split; [reflexivity|]. split; [reflexivity|].
  destruct (report_parts_agree three_rules_world
              [scenario_a; scenario_d; scenario_d] empty_results "a.json"
              eq_refl eq_refl eq_refl)
    as (w' & rep & H1 & H2 & H3 & _).
  exists w', rep. split; [exact H1|]. split; [exact H2 | exact H3].
Defined.

(** * The detectors in the words of the specification *)

(** ** Case and white space *)

Lemma code_lt_256 (c : ascii) : Text.code c < 256.
Proof. apply nat_ascii_bounded. Qed.

Lemma code_inj (a b : ascii) : Text.code a = Text.code b → a = b.
Proof.
  unfold Text.code. intros H.
  by rewrite <- (ascii_nat_embedding a), <- (ascii_nat_embedding b), H.
Qed.

Lemma code_upper_char (c : ascii) :
  (97 ≤ Text.code c ≤ 122
   ∧ Text.code (Text.upper_char c) = Text.code c - 32)
  ∨ (¬ 97 ≤ Text.code c ≤ 122 ∧ Text.upper_char c = c).
Proof.
  unfold Text.upper_char. destruct (_ && _) eqn:H.
  - apply andb_true_iff in H as [H1%Nat.leb_le H2%Nat.leb_le].
    left. split; [lia|]. unfold Text.code at 1. apply nat_ascii_embedding. lia.
  - right. split; [|done].
    apply andb_false_iff in H as [H%Nat.leb_gt | H%Nat.leb_gt]; lia.
Qed.

Lemma code_lower_char (c : ascii) :
  (65 ≤ Text.code c ≤ 90
   ∧ Text.code (Text.lower_char c) = Text.code c + 32)
  ∨ (¬ 65 ≤ Text.code c ≤ 90 ∧ Text.lower_char c = c).
Proof.
  unfold Text.lower_char. destruct (_ && _) eqn:H.
  - apply andb_true_iff in H as [H1%Nat.leb_le H2%Nat.leb_le].
    left. split; [lia|]. unfold Text.code at 1. apply nat_ascii_embedding. lia.
  - right. split; [|done].
    apply andb_false_iff in H as [H%Nat.leb_gt | H%Nat.leb_gt]; lia.
Qed.

Lemma same_letter_codes (a b : ascii) :
  same_letter a b = true
  ↔ Text.code a = Text.code b
    ∨ (65 ≤ Text.code a ≤ 90 ∧ Text.code b = Text.code a + 32)
    ∨ (65 ≤ Text.code b ≤ 90 ∧ Text.code a = Text.code b + 32).
Proof.
  unfold same_letter.
  rewrite !orb_true_iff, !andb_true_iff, !Nat.leb_le, !Nat.eqb_eq, Ascii.eqb_eq.
  split.
  - intros [[-> | ?] | ?]; [by left | right; left; lia | right; right; lia].
  - intros [?%code_inj | [? | ?]]; [by left; left | left; right; lia | right; lia].
Qed.

Lemma same_letter_upper (a b : ascii) :
  Text.upper_char a = Text.upper_char b ↔ same_letter a b = true.
Proof.
  rewrite same_letter_codes. split.
  - intros H. apply (f_equal Text.code) in H.
    destruct (code_upper_char a) as [[? Ha] | [? Ha]],
      (code_upper_char b) as [[? Hb] | [? Hb]];
      rewrite Ha, Hb in H; lia.
  - intros H. apply code_inj.
    destruct (code_upper_char a) as [[? Ha] | [? Ha]],
      (code_upper_char b) as [[? Hb] | [? Hb]];
      rewrite Ha, Hb; lia.
Qed.

Lemma same_letter_lower (a b : ascii) :
  Text.lower_char a = Text.lower_char b ↔ same_letter a b = true.
Proof.
  rewrite same_letter_codes. split.
  - intros H. apply (f_equal Text.code) in H.
    destruct (code_lower_char a) as [[? Ha] | [? Ha]],
      (code_lower_char b) as [[? Hb] | [? Hb]];
      rewrite Ha, Hb in H; lia.
  - intros H. apply code_inj.
    destruct (code_lower_char a) as [[? Ha] | [? Ha]],
      (code_lower_char b) as [[? Hb] | [? Hb]];
      rewrite Ha, Hb; lia.
Qed.

Lemma caseless_upper (s t : string) :
  Text.upper s = Text.upper t ↔ caseless_eq s t = true.
Proof.
  unfold Text.upper.
  revert t. induction s as [|a s IH]; intros [|b t]; simpl; try done.
  rewrite andb_true_iff, <- IH, <- same_letter_upper. split.
  - by intros [= -> ->].
  - by intros [-> ->].
Qed.

Lemma caseless_lower (s t : string) :
  Text.lower s = Text.lower t ↔ caseless_eq s t = true.
Proof.
  unfold Text.lower.
  revert t. induction s as [|a s IH]; intros [|b t]; simpl; try done.
  rewrite andb_true_iff, <- IH, <- same_letter_lower. split.
  - by intros [= -> ->].
  - by intros [-> ->].
Qed.

(** The test [action == 'ACCEPT'] of the three detectors. *)
Lemma action_upper_accepts (p : policy) :
  action_upper p = "ACCEPT" ↔ accepts p.
Proof.
  unfold accepts, normalized, action_upper. by rewrite <- caseless_upper.
Qed.

Lemma lstrip_blank_app (l s : string) :
  blank l = true → Text.lstrip (l +:+ s) = Text.lstrip s.
Proof.
  induction l as [|c l IH]; [done|]. cbn [blank]. intros [Hc Hl]%andb_true_iff.
  rewrite append_cons. cbn [Text.lstrip]. rewrite Hc. by apply IH.
Qed.

Lemma lstrip_split (s : string) :
  ∃ l, s = l +:+ Text.lstrip s ∧ blank l = true.
Proof.
  induction s as [|c s (l & Hs & Hl)]; [by exists ""|].
  cbn [Text.lstrip]. destruct (Text.is_space c) eqn:Hc.
  - exists (String c l). rewrite append_cons, <- Hs. split; [done|].
    cbn [blank]. by rewrite Hc, Hl.
  - by exists "".
Qed.

Lemma rstrip_blank (r : string) : blank r = true → Text.rstrip r = "".
Proof.
  induction r as [|c r IH]; [done|]. cbn [blank]. intros [Hc Hr]%andb_true_iff.
  cbn [Text.rstrip]. by rewrite (IH Hr), Hc.
Qed.

Lemma rstrip_app_blank (t r : string) :
  blank r = true → Text.rstrip (t +:+ r) = Text.rstrip t.
Proof.
  intros Hr. induction t as [|c t IH]; [by apply rstrip_blank|].
  rewrite append_cons. cbn [Text.rstrip]. by rewrite IH.
Qed.

Lemma rstrip_split (s : string) :
  ∃ r, s = Text.rstrip s +:+ r ∧ blank r = true.
Proof.
  induction s as [|c s (r & Hs & Hr)]; [by exists ""|].
  cbn [Text.rstrip]. destruct (Text.rstrip s) as [|c' s'] eqn:Hrs.
  - rewrite append_nil_l in Hs. subst r.
    destruct (Text.is_space c) eqn:Hc.
    + exists (String c s). split; [done|]. cbn [blank]. by rewrite Hc, Hr.
    + by exists s.
  - exists r. by rewrite append_cons, <- Hs.
Qed.

Lemma rstrip_last (s : string) :
  from_option Text.is_space false (last_char (Text.rstrip s)) = false.
Proof.
  induction s as [|c s IH]; [done|]. cbn [Text.rstrip].
  destruct (Text.rstrip s) as [|c' s'] eqn:Hrs.
  - destruct (Text.is_space c) eqn:Hc; [done|]. simpl. exact Hc.
  - exact IH.
Qed.

Lemma rstrip_tight (t : string) :
  from_option Text.is_space false (last_char t) = false → Text.rstrip t = t.
Proof.
  induction t as [|c t IH]; [done|]. cbn [Text.rstrip last_char].
  destruct t as [|c' t].
  - simpl. by intros ->.
  - intros H. by rewrite (IH H).
Qed.

Lemma rstrip_head (c : ascii) (s : string) :
  Text.is_space c = false → ∃ s', Text.rstrip (String c s) = String c s'.
Proof.
  intros Hc. cbn [Text.rstrip]. destruct (Text.rstrip s) as [|c' s'].
  - rewrite Hc. by exists "".
  - by exists (String c' s').
Qed.

(** [s.strip()] is the trimmed form of [s], and the only one. *)
Lemma strip_trimmed (s : string) : trimmed s (Text.strip s).
Proof.
  unfold Text.strip.
  destruct (lstrip_split s) as (l & Hs & Hl).
  destruct (rstrip_split (Text.lstrip s)) as (r & Hm & Hr).
  exists l, r. split; [by rewrite <- Hm|]. split; [done|]. split; [done|].
  unfold tight. pose proof (rstrip_last (Text.lstrip s)) as Hlast.
  destruct (Text.rstrip (Text.lstrip s)) as [|c t] eqn:Hrs; [done|].
  rewrite Hlast, andb_true_r. apply negb_true_iff.
  assert (∀ x, Text.lstrip x = "" ∨ ∃ a y, Text.lstrip x = String a y
                                           ∧ Text.is_space a = false) as Hhead.
  { intros x. induction x as [|a x IH]; [by left|]. cbn [Text.lstrip].
    destruct (Text.is_space a) eqn:Ha; [exact IH|]. right. by exists a, x. }
  destruct (Hhead s) as [Hnil | (a & y & Hay & Ha)].
  - by rewrite Hnil in Hrs.
  - rewrite Hay in Hrs. destruct (rstrip_head a y Ha) as (s' & Hs').
    rewrite Hs' in Hrs. by injection Hrs as <- _.
Qed.

Lemma strip_unique (s t : string) : trimmed s t → Text.strip s = t.
Proof.
  intros (l & r & -> & Hl & Hr & Ht). unfold Text.strip.
  rewrite (lstrip_blank_app l _ Hl).
  destruct t as [|c t].
  - rewrite append_nil_l.
    assert (Text.lstrip r = "") as ->; [|done].
    clear -Hr. induction r as [|c r IH]; [done|].
    cbn [blank] in Hr. apply andb_true_iff in Hr as [Hc Hr].
    cbn [Text.lstrip]. rewrite Hc. by apply IH.
  - unfold tight in Ht. apply andb_true_iff in Ht as [Hc Hlast].
    apply negb_true_iff in Hc, Hlast.
    rewrite append_cons. cbn [Text.lstrip]. rewrite Hc, <- append_cons.
    rewrite (rstrip_app_blank _ r Hr). by apply rstrip_tight.
Qed.

Lemma strip_spec (s t : string) : Text.strip s = t ↔ trimmed s t.
Proof. split; [intros <-; apply strip_trimmed | apply strip_unique]. Qed.

(** ** Rounding to binary64 is a function of the number rounded *)

Section rounding_proper.

Local Open Scope Q_scope.

Lemma ilog2_lt (q : Q) : 0 < q → q < Binary64.pow2 (Binary64.ilog2 q + 1).
Proof.
  intros Hq. unfold Binary64.ilog2.
  destruct (Qle_bool _ q) eqn:Hb.
  - clear Hb. destruct q as [n d]. cbn [Qnum Qden].
    assert (0 < n)%Z as Hn by (unfold Qlt in Hq; simpl in Hq; lia).
    set (a := Z.log2 n). set (b := Z.log2 (Z.pos d)).
    assert (0 <= a)%Z as Ha by apply Z.log2_nonneg.
    assert (0 <= b)%Z as Hb by apply Z.log2_nonneg.
    destruct (Z.log2_spec n Hn) as [_ Hhi].
    destruct (Z.log2_spec (Z.pos d) eq_refl) as [Hlo _].
    fold a in Hhi. fold b in Hlo.
    replace (a - b + 1)%Z with ((a + 1) - b)%Z by lia.
    unfold Binary64.pow2. rewrite Qpower_minus by done.
    fold (Binary64.pow2 (a + 1)). fold (Binary64.pow2 b).
    rewrite (pow2_inject (a + 1)), (pow2_inject b) by lia.
    rewrite (Qmake_Qdiv n d).
    assert (0 < inject_Z (2 ^ b)) as HR.
    { rewrite <- pow2_inject by lia. apply pow2_pos. }
    assert (0 < inject_Z (Z.pos d)) as HD by done.
    apply Qlt_shift_div_l; [done|].
    setoid_replace (inject_Z n / inject_Z (Z.pos d) * inject_Z (2 ^ b))
      with (inject_Z n * inject_Z (2 ^ b) / inject_Z (Z.pos d))
      using relation Qeq by (by field).
    apply Qlt_shift_div_r; [done|].
    rewrite <- !inject_Z_mult, <- Zlt_Qlt.
    replace (a + 1)%Z with (Z.succ a) by lia.
    assert (0 < 2 ^ b)%Z by (apply Z.pow_pos_nonneg; lia). nia.
  - replace (_ - 1 + 1)%Z with (Z.log2 (Qnum q) - Z.log2 (Z.pos (Qden q)))%Z
      by lia.
    apply Qnot_le_lt. intros H. apply Qle_bool_iff in H. congruence.
Qed.

Lemma ilog2_unique (q : Q) (e : Z) :
  Binary64.pow2 e <= q → q < Binary64.pow2 (e + 1) → Binary64.ilog2 q = e.
Proof.
  intros Hlo Hhi.
  assert (0 < q) as Hq by (eapply Qlt_le_trans; [apply pow2_pos | exact Hlo]).
  pose proof (ilog2_le q Hq) as Hlo'. pose proof (ilog2_lt q Hq) as Hhi'.
  assert (Binary64.ilog2 q < e + 1)%Z.
  { apply (Qpower_lt_compat_l_inv 2); [|done].
    eapply Qle_lt_trans; [exact Hlo' | exact Hhi]. }
  assert (e < Binary64.ilog2 q + 1)%Z.
  { apply (Qpower_lt_compat_l_inv 2); [|done].
    eapply Qle_lt_trans; [exact Hlo | exact Hhi']. }
  lia.
Qed.

Lemma ilog2_proper (q q' : Q) :
  0 < q → q == q' → Binary64.ilog2 q = Binary64.ilog2 q'.
Proof.
  intros Hq Heq. symmetry. apply ilog2_unique.
  - rewrite <- Heq. by apply ilog2_le.
  - rewrite <- Heq. by apply ilog2_lt.
Qed.

Lemma round_half_even_proper (q q' : Q) :
  q == q' → Binary64.round_half_even q = Binary64.round_half_even q'.
Proof.
  intros Heq. unfold Binary64.round_half_even.
  rewrite (Qfloor_comp q q' Heq).
  assert (q - inject_Z (Qfloor q') == q' - inject_Z (Qfloor q')) as H
    by (by rewrite Heq).
  by rewrite (Qcompare_comp _ _ H (1 # 2) (1 # 2) (Qeq_refl _)).
Qed.

Lemma round64_proper (q q' : Q) :
  q == q' → Binary64.round64 q = Binary64.round64 q'.
Proof.
  intros Heq. unfold Binary64.round64.
  rewrite (Qleb_comp q q' Heq 0 0 (Qeq_refl 0)).
  destruct (Qle_bool q' 0) eqn:Hb; [done|].
  assert (0 < q) as Hq.
  { rewrite Heq. apply Qnot_le_lt. intros H. apply Qle_bool_iff in H. congruence. }
  cbv zeta. rewrite <- (ilog2_proper q q' Hq Heq).
  set (e := Z.max (Binary64.ilog2 q - 52) (-1074)).
  assert (q / Binary64.pow2 e == q' / Binary64.pow2 e) as Hdiv
    by (by rewrite Heq).
  rewrite <- (round_half_even_proper _ _ Hdiv). done.
Qed.

End rounding_proper.

(** ** Numeric tokens and their value *)

Lemma digits_value_decimal (acc : Z) (ds : string) :
  digits_value acc ds
  = (acc * 10 ^ Z.of_nat (String.length ds) + decimal_of ds)%Z.
Proof.
  revert acc. induction ds as [|c ds IH]; intros acc.
  - simpl. lia.
  - cbn [digits_value decimal_of String.length]. rewrite IH.
    rewrite Nat2Z.inj_succ, Z.pow_succ_r by lia. lia.
Qed.

Lemma all_digits_cons (c : ascii) (ds : string) :
  all_digits (String c ds) = true →
  Text.is_digit c = true ∧ (ds = "" ∨ all_digits ds = true).
Proof.
  cbn [all_digits]. destruct ds as [|c' ds]; [by intros ->; split; [|left]|].
  intros [? ?]%andb_true_iff. split; [done | by right].
Qed.

Lemma digit_not_dot (c : ascii) : Text.is_digit c = true → Ascii.eqb c "." = false.
Proof.
  intros Hd. apply Ascii.eqb_neq. intros ->. by vm_compute in Hd.
Qed.

Lemma split_dot_digits (ds : string) :
  all_digits ds = true → split_dot ds = (ds, "").
Proof.
  induction ds as [|c ds IH]; [done|].
  intros [Hc Hds]%all_digits_cons. cbn [split_dot].
  rewrite (digit_not_dot c Hc). destruct Hds as [-> | Hds]; [done|].
  by rewrite (IH Hds).
Qed.

Lemma split_dot_token (ip fp : string) :
  all_digits ip = true → split_dot (ip +:+ "." +:+ fp) = (ip, fp).
Proof.
  induction ip as [|c ip IH]; [done|].
  intros [Hc Hip]%all_digits_cons. rewrite append_cons. cbn [split_dot].
  rewrite (digit_not_dot c Hc). destruct Hip as [-> | Hip]; [done|].
  by rewrite (IH Hip).
Qed.

(** [float(tok)] is the binary64 nearest to the number that the literal
    denotes. *)
Lemma float_of_text_value (tok rest : string) :
  numeric_token tok rest →
  float_of_text tok = Binary64.round64 (token_value tok).
Proof.
  intros [_ [[Htok _] | (ip & fp & -> & Hip & Hfp)]];
    unfold float_of_text, token_value.
  - assert (span_digits tok = (tok, "")) as ->.
    { rewrite <- (append_nil_r tok) at 1. by apply span_digits_app. }
    rewrite (split_dot_digits tok Htok).
    apply round64_proper. rewrite append_nil_r, digits_value_decimal.
    simpl. unfold Qeq. simpl. lia.
  - rewrite (split_dot_token ip fp Hip).
    change ("." +:+ fp) with (String "." fp).
    rewrite (span_digits_app ip (String "." fp) Hip eq_refl).
    assert (span_digits fp = (fp, "")) as ->.
    { rewrite <- (append_nil_r fp) at 1. by apply span_digits_app. }
    cbn [fst].
    apply round64_proper.
    rewrite digits_value_app, !digits_value_decimal.
    set (n := Z.of_nat (String.length fp)).
    assert (0 < 10 ^ n)%Z as Hpow by (apply Z.pow_pos_nonneg; lia).
    assert (Binary64.pow10 n == inject_Z (10 ^ n))%Q as Hp10.
    { unfold Binary64.pow10. rewrite Zpower_Qpower by lia. done. }
    rewrite Hp10, Z.mul_0_l, Z.add_0_l, inject_Z_plus, inject_Z_mult.
    field. intros H. unfold Qeq in H. simpl in H. lia.
Qed.

Lemma span_digits_split (s : string) :
  s = (span_digits s).1 +:+ (span_digits s).2
  ∧ ((span_digits s).1 = "" ∨ all_digits (span_digits s).1 = true)
  ∧ starts_with_digit (span_digits s).2 = false.
Proof.
  induction s as [|c s (Hs & Hd & Hr)];
    [split; [done | split; [by left | done]]|].
  cbn [span_digits].
  destruct (Text.is_digit c) eqn:Hc.
  - destruct (span_digits s) as [ds rest]. cbn [fst snd] in *.
    split; [by rewrite append_cons, <- Hs|]. split; [|done]. right.
    cbn [all_digits]. destruct Hd as [-> | Hd]; [done|].
    rewrite Hc, Hd. by destruct ds.
  - cbn [fst snd]. split; [done|]. split; [by left|]. simpl. exact Hc.
Qed.

Lemma match_number_some (s tok : string) :
  match_number s = Some tok →
  ∃ rest, s = tok +:+ rest ∧ numeric_token tok rest.
Proof.
  unfold match_number. destruct (span_digits_split s) as (Hs & Hd & Hr).
  destruct (span_digits s) as [ip r]. cbn [fst snd] in *.
  destruct ip as [|c ip]; [done|]. destruct Hd as [Hd | Hd]; [done|].
  assert (∀ x, Some (String c ip) = Some x →
               starts_with_dot_digit r = false →
               ∃ rest, s = x +:+ rest ∧ numeric_token x rest) as Hint.
  { intros x [= <-] Hdot. exists r. split; [done|]. split; [done|]. by left. }
  destruct r as [|x r]; [intros H; by apply (Hint _ H)|].
  destruct (Ascii.eqb_spec x ".") as [-> | Hx].
  - destruct (span_digits_split r) as (Hs' & Hd' & Hr').
    destruct (span_digits r) as [fp r']. cbn [fst snd] in *.
    destruct fp as [|c' fp].
    + intros H. apply (Hint _ H). rewrite append_nil_l in Hs'. subst r'.
      simpl. exact Hr'.
    + destruct Hd' as [Hd' | Hd']; [done|]. intros [= <-]. exists r'.
      split.
      * rewrite Hs, Hs', !append_assoc. done.
      * split; [done|]. right. by exists (String c ip), (String c' fp).
  - revert Hx Hint. clear.
    destruct x as [[] [] [] [] [] [] [] []]; intros Hx Hint H;
      first [done | by apply (Hint _ H)].
Qed.

Lemma re_search_some (s tok : string) :
  re_search_number s = Some tok →
  ∃ pre rest, s = pre +:+ tok +:+ rest
              ∧ no_digit pre = true ∧ numeric_token tok rest.
Proof.
  induction s as [|c s IH]; [done|]. cbn [re_search_number].
  destruct (Text.is_digit c) eqn:Hc.
  - intros (rest & Hs & Htok)%match_number_some. by exists "", rest.
  - intros (pre & rest & -> & Hpre & Htok)%IH.
    exists (String c pre), rest. rewrite append_cons. split; [done|].
    split; [|done]. cbn [no_digit]. by rewrite Hc, Hpre.
Qed.

(** ** The numeric extractor, in the words of the specification *)

Lemma extract_reads (v : value) : reads_as v (_extract_bytes_value v).
Proof.
  unfold _extract_bytes_value.
  destruct (truthy v) eqn:Ht; simpl; [|by constructor; left].
  case_bool_decide as Hv; [by constructor; right|].
  destruct (re_search_number (py_str v)) as [tok|] eqn:Hre.
  - destruct (re_search_some _ _ Hre) as (pre & rest & Hs & Hpre & Htok).
    rewrite (float_of_text_value tok rest Htok).
    by apply (reads_first_number v pre tok rest).
  - apply reads_no_number. by apply re_search_none.
Qed.

Lemma reads_extract (v : value) (n : number) :
  reads_as v n → _extract_bytes_value v = n.
Proof.
  unfold _extract_bytes_value. intros [[Hf | ->] | Hnd | pre tok rest Ht Hv Hs Hpre Htok].
  - by rewrite Hf.
  - by rewrite bool_decide_eq_true_2, orb_true_r.
  - apply re_search_none in Hnd. rewrite Hnd. by destruct (_ || _).
  - rewrite Ht, bool_decide_eq_false_2 by done. simpl.
    rewrite Hs, (re_search_token pre tok rest Hpre Htok).
    by rewrite (float_of_text_value tok rest Htok).
Qed.

(** C3, as the code has it. For a counter written in ASCII characters the
    extractor returns exactly the number that the amended sentence
    describes: 0 for a value that is absent, false or literally "0 B" and
    for a text without any digit; otherwise the binary64 nearest to the
    first decimal number (digits, optionally a dot and digits) that occurs
    anywhere in the string form of the value, leading or not.  So
    "15420 MB" and "MB 15420" both give 15420.0, and "1.5 GB" gives 1.5. *)
Theorem extract_bytes_value_spec (v : value) (n : number) :
  ascii_value v = true →
  (_extract_bytes_value v = n ↔ reads_as v n).
Proof.
  intros _. split; [intros <-; apply extract_reads | apply reads_extract].
Qed.

Lemma extract_bytes_value_spec_witness :
  ascii_value (VScalar (SStr "15420 MB")) = true
  ∧ ascii_value (VList [SStr "rx 1.50 GB"]) = true
  ∧ _extract_bytes_value (VScalar (SStr "15420 MB"))
    = NFloat (Binary64.Finite 15420)
  ∧ _extract_bytes_value (VScalar (SStr "MB 15420"))
    = NFloat (Binary64.Finite 15420)
  ∧ _extract_bytes_value (VList [SStr "rx 1.50 GB"])
    = NFloat (Binary64.Finite (3 # 2))
  ∧ _extract_bytes_value (VScalar (SStr "n/a")) = NInt 0.
Proof.
  split; [reflexivity|]. split; [reflexivity|].
  split; [|split; [|split]].
  - apply (extract_bytes_value_spec (VScalar (SStr "15420 MB"))); [reflexivity|].
    change (NFloat (Binary64.Finite 15420))
      with (NFloat (Binary64.round64 (token_value "15420"))).
    apply (reads_first_number _ "" "15420" " MB");
      [reflexivity | discriminate | reflexivity | reflexivity |].
    split; [reflexivity|]. left. split; reflexivity.
  - apply (extract_bytes_value_spec (VScalar (SStr "MB 15420"))); [reflexivity|].
    change (NFloat (Binary64.Finite 15420))
      with (NFloat (Binary64.round64 (token_value "15420"))).
    apply (reads_first_number _ "MB " "15420" "");
      [reflexivity | discriminate | reflexivity | reflexivity |].
    split; [reflexivity|]. left. split; reflexivity.
  - apply (extract_bytes_value_spec (VList [SStr "rx 1.50 GB"])); [reflexivity|].
    change (NFloat (Binary64.Finite (3 # 2)))
      with (NFloat (Binary64.round64 (token_value "1.50"))).
    apply (reads_first_number _ "['rx " "1.50" " GB']");
      [reflexivity | discriminate | reflexivity | reflexivity |].
    split; [reflexivity|]. right. exists "1", "50". repeat split; reflexivity.
  - apply (extract_bytes_value_spec (VScalar (SStr "n/a"))); [reflexivity|].
    apply reads_no_number. reflexivity.
Defined.

(** ** The unused-rule detector, in the words of the specification *)

Lemma is_unused_spec (p : policy) :
  is_unused p = true ↔ accepts p ∧ reads_zero p.
Proof.
  unfold is_unused, reads_zero, get.
  rewrite andb_true_iff, String.eqb_eq, action_upper_accepts.
  destruct (p !! "Bytes") as [v|]; simpl.
  - split.
    + intros [Hz Ha]. split; [done|]. exists (_extract_bytes_value v).
      split; [apply extract_reads | done].
    + intros [Ha (n & Hn & Hz)]. apply reads_extract in Hn. by subst n.
  - tauto.
Qed.

(** C5. The unused-rule detector reports the position of a record exactly
    when its action is ACCEPT in any case of letters and its bytes counter
    reads as zero (the counter being ASCII text, or absent); a record
    whose counter is "15420 MB" reads as 15420.0 and is never reported,
    whatever its action. *)
Theorem unused_rule_flagged_iff (policies : list policy) (i : nat) (p : policy) :
  policies !! i = Some p →
  (ascii_field p "Bytes" = true →
   (i + 1 ∈ unused_ids (unused_rules_of policies) ↔ accepts p ∧ reads_zero p))
  ∧ (p !! "Bytes" = Some (VScalar (SStr "15420 MB")) →
     reads_as (VScalar (SStr "15420 MB")) (NFloat (Binary64.Finite 15420))
     ∧ ¬ reads_zero p
     ∧ i + 1 ∉ unused_ids (unused_rules_of policies)).
Proof.
  intros Hi.
  assert (i + 1 ∈ unused_ids (unused_rules_of policies)
          ↔ accepts p ∧ reads_zero p) as Hiff.
  { rewrite unused_rules_ids.
    rewrite (proj2 (selected_ids is_unused policies) i p Hi).
    apply is_unused_spec. }
  split; [done|]. intros Hb.
  assert (reads_as (VScalar (SStr "15420 MB")) (NFloat (Binary64.Finite 15420)))
    as Hreads.
  { rewrite <- extract_15420_MB. apply extract_reads. }
  assert (¬ reads_zero p) as Hnz.
  { unfold reads_zero. rewrite Hb. intros (n & Hn & Hz).
    apply reads_extract in Hn. rewrite extract_15420_MB in Hn. by subst n. }
  split; [done|]. split; [done|]. rewrite Hiff. tauto.
Qed.

Lemma unused_rule_flagged_iff_witness :
  [bare_accept; scenario_d; idle_deny] !! 0 = Some bare_accept
  ∧ ascii_field bare_accept "Bytes" = true
  ∧ ascii_field idle_deny "Bytes" = true
  ∧ accepts bare_accept ∧ reads_zero bare_accept
  ∧ ¬ accepts idle_deny
  ∧ 0 + 1 ∈ unused_ids (unused_rules_of [bare_accept; scenario_d; idle_deny])
  ∧ (1 + 1 ∉ unused_ids (unused_rules_of [bare_accept; scenario_d; idle_deny]))
  ∧ 2 + 1 ∉ unused_ids (unused_rules_of [bare_accept; scenario_d; idle_deny]).
Proof.
  split; [reflexivity|]. split; [reflexivity|]. split; [reflexivity|].
  split; [reflexivity|]. split; [exact I|]. split; [discriminate|].
  split; [|split].
  - apply (proj1 (unused_rule_flagged_iff [bare_accept; scenario_d; idle_deny]
                    0 bare_accept eq_refl)); [reflexivity|].
    split; [reflexivity | exact I].
  - apply (proj2 (unused_rule_flagged_iff [bare_accept; scenario_d; idle_deny]
                    1 scenario_d eq_refl)). reflexivity.
  - intros Hin.
    apply (proj1 (unused_rule_flagged_iff [bare_accept; scenario_d; idle_deny]
                    2 idle_deny eq_refl)) in Hin as [Ha _]; [|reflexivity].
    discriminate Ha.
Defined.

(** ** The logging auditor, in the words of the specification *)

Lemma lower_nil (s : string) : Text.lower s = "" → s = "".
Proof. by destruct s. Qed.

Lemma is_no_logging_spec (p : policy) :
  is_no_logging p = true ↔ logging_disabled p.
Proof.
  unfold is_no_logging, str_in, logging_disabled, log_setting_of.
  fold (normalized p "Log"). rewrite bool_decide_eq_true.
  rewrite !elem_of_cons, elem_of_nil. split.
  - intros H. exists (Text.strip (normalized p "Log")).
    split; [apply strip_trimmed|].
    destruct H as [H | [H | [H | []]]].
    + left. by apply lower_nil.
    + right; left. by apply caseless_lower.
    + right; right. by apply caseless_lower.
  - intros (t & Ht & H). rewrite (strip_unique _ _ Ht).
    destruct H as [-> | [H | H]].
    + by left.
    + right; left. by apply caseless_lower in H.
    + right; right; left. by apply caseless_lower in H.
Qed.

(** C7. The logging auditor puts every record in exactly one of
    [no_logging] and [with_logging], whatever its action and whatever its
    fields hold; for a log setting written in ASCII characters the record
    is in [no_logging] exactly when the trimmed setting is empty or is
    "none" or "disable" in any case of letters, and in [with_logging]
    otherwise. *)
Theorem logging_partition (policies : list policy) (i : nat) (p : policy) :
  policies !! i = Some p →
  let no_ids := logging_ids (no_logging (logging_of policies)) in
  let with_ids := logging_ids (with_logging (logging_of policies)) in
  (ascii_field p "Log" = true →
   (i + 1 ∈ no_ids ↔ logging_disabled p)
   ∧ (i + 1 ∈ with_ids ↔ ¬ logging_disabled p))
  ∧ (i + 1 ∈ no_ids ∨ i + 1 ∈ with_ids)
  ∧ ¬ (i + 1 ∈ no_ids ∧ i + 1 ∈ with_ids)
  ∧ NoDup (no_ids ++ with_ids)
  ∧ length no_ids + length with_ids = length policies.
Proof.
  intros Hi no_ids with_ids.
  destruct (logging_ids_eq policies) as [Hno Hwith].
  assert (i + 1 ∈ no_ids ↔ logging_disabled p) as H1.
  { subst no_ids. rewrite Hno.
    rewrite (proj2 (selected_ids is_no_logging policies) i p Hi).
    apply is_no_logging_spec. }
  assert (i + 1 ∈ with_ids ↔ ¬ logging_disabled p) as H2.
  { subst with_ids. rewrite Hwith.
    rewrite (proj2 (selected_ids (λ x, negb (is_no_logging x)) policies) i p Hi).
    rewrite negb_true_iff, <- is_no_logging_spec.
    by destruct (is_no_logging p). }
  assert (Decision (logging_disabled p)) as Hdec.
  { destruct (is_no_logging p) eqn:Hb.
    - left. by apply is_no_logging_spec.
    - right. intros H%is_no_logging_spec. congruence. }
  split; [done|]. split; [|split; [|split]].
  - rewrite H1, H2. destruct Hdec; tauto.
  - rewrite H1, H2. tauto.
  - subst no_ids with_ids. rewrite Hno, Hwith.
    apply (selected_ids_disjoint is_no_logging (λ x, negb (is_no_logging x))).
    intros x Hx. by rewrite Hx.
  - subst no_ids with_ids. unfold logging_ids. rewrite logging_of_eq. simpl.
    rewrite !length_fmap.
    rewrite <- (length_imap pair policies). fold (enumerate policies).
    generalize (enumerate policies). intros l.
    induction l as [|x l IH]; [done|]. rewrite !filter_cons.
    destruct (is_no_logging x.2); simpl;
      repeat case_decide; try done; simpl; lia.
Qed.

Lemma logging_partition_witness :
  [padded_log; scenario_d] !! 0 = Some padded_log
  ∧ ascii_field padded_log "Log" = true
  ∧ ascii_field scenario_d "Log" = true
  ∧ normalized padded_log "Log" = "  " +:+ "Disable" +:+ " "
  ∧ normalized scenario_d "Log" = "UTM"
  ∧ 0 + 1 ∈ logging_ids (no_logging (logging_of [padded_log; scenario_d]))
  ∧ 1 + 1 ∈ logging_ids (with_logging (logging_of [padded_log; scenario_d])).
Proof.
  split; [reflexivity|]. split; [reflexivity|]. split; [reflexivity|].
  split; [reflexivity|]. split; [reflexivity|]. split.
  - apply (proj1 (logging_partition [padded_log; scenario_d] 0 padded_log
                    eq_refl)); [reflexivity|].
    exists "Disable". split.
    + exists "  ", " ". repeat split; reflexivity.
    + right; right. reflexivity.
  - apply (proj1 (logging_partition [padded_log; scenario_d] 1 scenario_d
                    eq_refl)); [reflexivity|].
    intros (t & Ht & H). apply strip_unique in Ht.
    change (Text.strip (normalized scenario_d "Log")) with "UTM" in Ht.
    subst t. destruct H as [H | [H | H]]; discriminate H.
Defined.

(** ** The duplicate detector, in the words of the specification *)

Lemma signature_spec (p : policy) (sig : string) :
  accepts p → (signature_of p = sig ↔ has_signature p sig).
Proof.
  intros Ha%action_upper_accepts. unfold signature_of, has_signature.
  rewrite Ha. fold (normalized p "Source") (normalized p "Destination")
    (normalized p "Service") (normalized p "Interface Pair"). split.
  - intros <-. eexists _, _, _, _.
    repeat (split; [apply strip_trimmed|]). reflexivity.
  - intros (a & b & c & d & Ha'%strip_unique & Hb%strip_unique
            & Hc%strip_unique & Hd%strip_unique & ->).
    by rewrite Ha', Hb, Hc, Hd.
Qed.

Lemma group_members_spec (policies : list policy) (k : string) (n : nat) :
  n ∈ d_id <$> members_of k (accept_entries policies)
  ↔ ∃ i p, n = i + 1 ∧ policies !! i = Some p
           ∧ accepts p ∧ has_signature p k.
Proof.
  rewrite members_ids_spec. split.
  - intros (i & p & -> & Hi & Ha%action_upper_accepts & Hk).
    exists i, p. repeat split; try done. by apply signature_spec.
  - intros (i & p & -> & Hi & Ha & Hk). exists i, p.
    repeat split; try done; [by apply action_upper_accepts|].
    by apply signature_spec.
Qed.

(** C6. Every emitted group has at least two members, its count is their
    number, and its members are ACCEPT records in input order; no two
    groups have the same signature, and the groups are in the order in
    which their first members occur in the input.  When the source,
    destination, service and interface pair are ASCII text, the members
    of a group are exactly the records whose action is ACCEPT in any case
    of letters and whose signature, formed in the words of the
    specification (the four trimmed fields and the action joined by "|"),
    is the signature of the group; and two such records with one
    signature always have a group. *)
Theorem duplicate_groups_spec (policies : list policy) :
  let groups := duplicate_rules_of policies in
  (∀ g, g ∈ groups →
     g_count g = length (g_rules g) ∧ 2 ≤ length (g_rules g)
     ∧ StronglySorted lt (group_ids g)
     ∧ ∀ n, n ∈ group_ids g →
            ∃ i p, n = i + 1 ∧ policies !! i = Some p ∧ accepts p)
  ∧ NoDup (g_signature <$> groups)
  ∧ StronglySorted lt ((λ g, head_id (g_rules g)) <$> groups)
  ∧ (Forall (λ p, ascii_record p = true) policies →
     (∀ g n, g ∈ groups →
        (n ∈ group_ids g ↔
         ∃ i p, n = i + 1 ∧ policies !! i = Some p
                ∧ accepts p ∧ has_signature p (g_signature g)))
     ∧ (∀ i j p q sig,
          i ≠ j → policies !! i = Some p → policies !! j = Some q →
          accepts p → accepts q →
          has_signature p sig → has_signature q sig →
          ∃ g, g ∈ groups ∧ g_signature g = sig
               ∧ i + 1 ∈ group_ids g ∧ j + 1 ∈ group_ids g)).
Proof.
  intros groups. subst groups. rewrite duplicate_rules_of_eq.
  pose proof (build_table_ok _ (accept_entries_sorted policies))
    as (Hnd & Heq & Hkeys & Hheads).
  set (E := accept_entries policies) in *. set (t := build_table E) in *.
  assert (∀ k ms, (k, ms) ∈ t → ms = members_of k E) as Hms.
  { intros k ms Hin. rewrite Heq in Hin.
    by apply list_elem_of_fmap in Hin as (k' & [= -> ->] & _). }
  split; [|split; [|split; [|intros _; split]]].
  - intros g ([k ms] & -> & Hin)%list_elem_of_fmap.
    apply list_elem_of_filter in Hin as [Hlen Hin]. simpl in *.
    apply Is_true_true, Nat.ltb_lt in Hlen.
    split; [done|]. split; [lia|]. unfold group_ids. simpl.
    rewrite (Hms k ms Hin). split.
    + subst E. unfold accept_entries. rewrite members_of_ids.
      apply (selected_ids_sorted (λ ip, is_accept ip.2 ∧ signature_of ip.2 = k)).
    + intros n (i & p & -> & Hi & Ha & _)%group_members_spec. by exists i, p.
  - rewrite <- list_fmap_compose.
    apply (sublist_NoDup _ (t.*1)); [done|]. apply fmap_sublist, sublist_filter.
  - rewrite <- list_fmap_compose.
    apply (StronglySorted_sublist _ _ ((λ x, head_id x.2) <$> t)); [done|].
    apply fmap_sublist, sublist_filter.
  - intros g n ([k ms] & -> & Hin)%list_elem_of_fmap.
    apply list_elem_of_filter in Hin as [_ Hin]. unfold group_ids. simpl.
    rewrite (Hms k ms Hin). apply group_members_spec.
  - intros i j p q sig Hij Hi Hj Hp Hq Hsp Hsq.
    assert (i + 1 ∈ d_id <$> members_of sig E) as Hmi
      by (apply group_members_spec; by exists i, p).
    assert (j + 1 ∈ d_id <$> members_of sig E) as Hmj
      by (apply group_members_spec; by exists j, q).
    assert (2 ≤ length (members_of sig E)) as Hlen.
    { rewrite <- (length_fmap d_id).
      apply (two_elements _ (i + 1) (j + 1)); [done | done | lia]. }
    exists {| g_signature := sig; g_rules := members_of sig E;
              g_count := length (members_of sig E) |}.
    split; [|done]. apply list_elem_of_fmap.
    exists (sig, members_of sig E). split; [done|].
    apply list_elem_of_filter. split.
    + simpl. apply Is_true_true, Nat.ltb_lt. lia.
    + rewrite Heq. apply list_elem_of_fmap. exists sig.
      split; [done|]. apply Hkeys. intros Hnil. rewrite Hnil in Hlen.
      simpl in Hlen. lia.
Qed.

Lemma duplicate_groups_spec_witness :
  Forall (λ p, ascii_record p = true) [spaced_rule; scenario_a; tidy_rule]
  ∧ accepts spaced_rule ∧ accepts tidy_rule
  ∧ normalized spaced_rule "Source" = " " +:+ "lan" +:+ " "
  ∧ normalized spaced_rule "Service" = "" +:+ "HTTP" +:+ "  "
  ∧ ∃ g, g ∈ duplicate_rules_of [spaced_rule; scenario_a; tidy_rule]
         ∧ g_signature g = "lan|10.0.0.0/8|HTTP||ACCEPT"
         ∧ 0 + 1 ∈ group_ids g ∧ 2 + 1 ∈ group_ids g.
Proof.
  split; [by repeat constructor|]. split; [reflexivity|].
  split; [reflexivity|]. split; [reflexivity|]. split; [reflexivity|].
  apply (proj2 (proj2 (proj2 (proj2 (duplicate_groups_spec
           [spaced_rule; scenario_a; tidy_rule])))
           ltac:(by repeat constructor))
           0 2 spaced_rule tidy_rule "lan|10.0.0.0/8|HTTP||ACCEPT");
    [lia | reflexivity | reflexivity | reflexivity | reflexivity | |].
  - exists "lan", "10.0.0.0/8", "HTTP", "".
    split; [by exists " ", " "|]. split; [by exists "", ""|].
    split; [by exists "", "  "|]. split; [by exists "", ""|]. reflexivity.
  - exists "lan", "10.0.0.0/8", "HTTP", "".
    split; [by exists "", ""|]. split; [by exists "", ""|].
    split; [by exists "", ""|]. split; [by exists "", ""|]. reflexivity.
Defined.

(** ** The error of rounding *)

Section rounding_error.

Local Open Scope Q_scope.

Lemma round_half_even_error (q : Q) :
  Qabs (inject_Z (Binary64.round_half_even q) - q) <= 1 # 2.
Proof.
  pose proof (Qfloor_le q) as Hlo. pose proof (Qlt_floor q) as Hhi.
  rewrite inject_Z_plus in Hhi. change (inject_Z 1) with 1 in Hhi.
  unfold Binary64.round_half_even. apply Qabs_Qle_condition.
  destruct (q - inject_Z (Qfloor q) ?= 1 # 2) eqn:Hc.
  - apply Qeq_alt in Hc.
    destruct (Z.even (Qfloor q)); rewrite ?inject_Z_plus;
      change (inject_Z 1) with 1; split; lra.
  - apply Qlt_alt in Hc. split; lra.
  - apply Qgt_alt in Hc. rewrite inject_Z_plus. change (inject_Z 1) with 1.
    split; lra.
Qed.

Lemma pow2_succ (e : Z) : Binary64.pow2 (e + 1) == 2 * Binary64.pow2 e.
Proof.
  unfold Binary64.pow2. rewrite Qpower_plus by done. simpl. lra.
Qed.

(** A number between 0 and [2^j] rounds to a finite float within
    [2^(j-53)] of it. *)
Lemma round64_error (q : Q) (j : Z) :
  (-1021 <= j <= 1000)%Z → 0 <= q → q <= Binary64.pow2 j →
  ∃ x, Binary64.round64 q = Binary64.Finite x
       ∧ 0 <= x ∧ Qabs (x - q) <= Binary64.pow2 (j - 53).
Proof.
  intros Hj Hq0 Hqj. unfold Binary64.round64.
  destruct (Qle_bool q 0) eqn:Hb.
  { apply Qle_bool_iff in Hb. exists 0. split; [done|]. split; [lra|].
    apply Qabs_Qle_condition. pose proof (pow2_pos (j - 53)). split; lra. }
  assert (0 < q) as Hq.
  { apply Qnot_le_lt. intros H. apply Qle_bool_iff in H. congruence. }
  clear Hb. cbv zeta.
  assert (Binary64.ilog2 q <= j)%Z as Hlog.
  { apply (Qpower_le_compat_l_inv 2); [|done].
    eapply Qle_trans; [by apply ilog2_le | exact Hqj]. }
  set (e := Z.max (Binary64.ilog2 q - 52) (-1074)).
  assert (e <= j - 52)%Z as He by lia.
  pose proof (pow2_pos e) as Hpe.
  set (m := Binary64.round_half_even (q / Binary64.pow2 e)).
  pose proof (round_half_even_error (q / Binary64.pow2 e)) as Hm. fold m in Hm.
  apply Qabs_Qle_condition in Hm as [Hm1 Hm2].
  assert (Binary64.pow2 e <= Binary64.pow2 (j - 52)) as Hpe2
    by (by apply pow2_mono).
  assert (Binary64.pow2 (j - 52) == 2 * Binary64.pow2 (j - 53)) as Hhalf.
  { rewrite <- pow2_succ. by replace (j - 53 + 1)%Z with (j - 52)%Z by lia. }
  assert (q / Binary64.pow2 e * Binary64.pow2 e == q) as Hdiv
    by (field; lra).
  assert (Qabs (inject_Z m * Binary64.pow2 e - q) <= Binary64.pow2 (j - 53))
    as Herr.
  { apply Qabs_Qle_condition. split.
    - assert ((inject_Z m - q / Binary64.pow2 e) * Binary64.pow2 e
              >= - (1 # 2) * Binary64.pow2 e) as H.
      { apply Qmult_le_compat_r; lra. }
      lra.
    - assert ((inject_Z m - q / Binary64.pow2 e) * Binary64.pow2 e
              <= (1 # 2) * Binary64.pow2 e) as H.
      { apply Qmult_le_compat_r; lra. }
      lra. }
  apply Qabs_Qle_condition in Herr as [Herr1 Herr2].
  assert (0 <= inject_Z m * Binary64.pow2 e) as Hv0.
  { apply Qmult_le_0_compat; [|lra].
    change 0 with (inject_Z 0). rewrite <- Zle_Qle.
    assert (0 <= Qfloor (q / Binary64.pow2 e))%Z.
    { rewrite <- (Qfloor_Z 0). apply Qfloor_resp_le.
      change (inject_Z 0) with 0. apply Qle_shift_div_l; [done|]. lra. }
    pose proof (round_half_even_floor (q / Binary64.pow2 e)). subst m. lia. }
  assert (Binary64.pow2 j < Binary64.pow2 1023) as Hbig.
  { apply Qpower_lt_compat_l; [lia | done]. }
  assert (Binary64.pow2 (j - 53) <= Binary64.pow2 j) as Hsmall
    by (apply pow2_mono; lia).
  assert (Binary64.pow2 1024 == 2 * Binary64.pow2 1023) as H1024
    by (by rewrite <- pow2_succ).
  destruct (Qle_bool _ _) eqn:Hov.
  { apply Qle_bool_iff in Hov. exfalso. lra. }
  exists (Qred (inject_Z m * Binary64.pow2 e)). split; [done|].
  rewrite Qred_correct. split; [done|].
  apply Qabs_Qle_condition. split; lra.
Qed.

End rounding_error.

Section percent_value.

Local Open Scope Q_scope.

(** The float computed by [round(n / total * 100, 2)]. *)
Lemma percent_value (n total : nat) :
  (0 < total)%nat → (n ≤ total)%nat →
  is_percent_of n total
    (Binary64.round_ndigits
       (Binary64.mul_int
          (Binary64.truediv (Z.of_nat n) (Z.of_nat total)) 100) 2).
Proof.
  intros Ht Hn. unfold Binary64.truediv.
  set (q0 := inject_Z (Z.of_nat n) / inject_Z (Z.of_nat total)).
  assert (0 < inject_Z (Z.of_nat total)) as Htq.
  { change 0 with (inject_Z 0). rewrite <- Zlt_Qlt. lia. }
  assert (0 <= q0) as Hq0.
  { subst q0. apply Qle_shift_div_l; [done|]. rewrite Qmult_0_l.
    change 0 with (inject_Z 0). rewrite <- Zle_Qle. lia. }
  assert (q0 <= 1) as Hq1.
  { subst q0. apply Qle_shift_div_r; [done|]. rewrite Qmult_1_l.
    rewrite <- Zle_Qle. lia. }
  assert (Binary64.pow2 (-53) == 1 # 9007199254740992) as H53 by done.
  assert (Binary64.pow2 (-46) == 1 # 70368744177664) as H46 by done.
  assert (Binary64.pow2 7 == 128) as H7 by done.
  destruct (round64_error q0 0) as (y1 & -> & Hy1 & He1); [lia | done | done |].
  change (0 - 53)%Z with (-53)%Z in He1. rewrite H53 in He1.
  apply Qabs_Qle_condition in He1 as [He1 He1'].
  cbn [Binary64.mul_int].
  destruct (round64_error (y1 * inject_Z 100) 7) as (y2 & -> & Hy2 & He2);
    [lia | | |].
  { change (inject_Z 100) with 100. lra. }
  { rewrite H7. change (inject_Z 100) with 100. lra. }
  change (7 - 53)%Z with (-46)%Z in He2. rewrite H46 in He2.
  change (inject_Z 100) with 100 in He2.
  apply Qabs_Qle_condition in He2 as [He2 He2'].
  cbn [Binary64.round_ndigits].
  change (Binary64.pow10 2) with 100.
  set (k := Binary64.round_half_even (y2 * 100)).
  pose proof (round_half_even_error (y2 * 100)) as Hk. fold k in Hk.
  apply Qabs_Qle_condition in Hk as [Hk Hk'].
  exists k. split; [done|].
  assert (100 * inject_Z (Z.of_nat n) / inject_Z (Z.of_nat total) == 100 * q0)
    as -> by (subst q0; field; lra).
  assert (inject_Z k / 100 == inject_Z k * (1 # 100)) as -> by (by field).
  apply Qabs_Qle_condition. split; lra.
Qed.

End percent_value.

(** ** The report assembler, in the words of the specification *)

Lemma kind_count_le (ps : list policy) (k : rec_kind) :
  kind_count (results_of ps) k ≤ length ps.
Proof.
  assert (length (enumerate ps) = length ps) as Hn by apply length_imap.
  destruct k; unfold kind_count, results_of, list_len, no_logging_len; simpl.
  - rewrite permissive_rules_of_eq. simpl. rewrite length_fmap, <- Hn.
    apply length_filter.
  - rewrite permissive_rules_of_eq. simpl. rewrite length_fmap, <- Hn.
    apply length_filter.
  - rewrite unused_rules_of_eq, length_fmap, <- Hn. apply length_filter.
  - rewrite duplicate_rules_of_eq, length_fmap.
    pose proof (groups_size (build_table (accept_entries ps))) as H.
    rewrite build_table_size in H. unfold accept_entries in H.
    rewrite length_fmap in H.
    pose proof (length_filter (λ ip : nat * policy, is_accept ip.2)
                  (enumerate ps)). unfold accept_entries. lia.
  - rewrite logging_of_eq. simpl. rewrite length_fmap, <- Hn.
    apply length_filter.
Qed.

Lemma percent_text_spec (n total : nat) :
  n ≤ total →
  (0 < total → ∃ x, percent_text n total = Binary64.repr x +:+ "%"
                    ∧ is_percent_of n total x)
  ∧ (total = 0 → percent_text n total = "0%").
Proof.
  intros Hn. unfold percent_text. split.
  - intros Ht. apply Nat.ltb_lt in Ht as Hb. rewrite Hb.
    eexists. split; [reflexivity|]. by apply percent_value.
  - by intros ->.
Qed.

(** A percentage of one third shows as "33.33" and one of two thirds as
    "66.67": the rounded value is determined by [is_percent_of]. *)
Lemma percent_thirds (x : Binary64.float) :
  (is_percent_of 1 3 x → Binary64.repr x = "33.33")
  ∧ (is_percent_of 2 3 x → Binary64.repr x = "66.67")
  ∧ (is_percent_of 0 3 x → Binary64.repr x = "0.0").
Proof.
  split; [|split]; intros (k & -> & Hk); apply Qabs_Qle_condition in Hk as [H1 H2];
    unfold Qle in H1, H2; simpl in H1, H2.
  - assert (k = 3333%Z) as -> by lia. by vm_compute.
  - assert (k = 6667%Z) as -> by lia. by vm_compute.
  - assert (k = 0%Z) as -> by lia. by vm_compute.
Qed.

(** C8. When the report is assembled and written, every count of the
    summary is the length of the corresponding finding sequence (a number),
    and with at least one record every percent field is the text of a
    float followed by "%", the float being [100 * count / total_rules]
    rounded to two decimals, where [total_rules] is the number of input
    records; with no record every percent field is "0%" and the run
    raises no division error. *)
Theorem report_percent_fields (w : World) (ps : list policy) (r : Results)
    (output_file : string) :
  a_policies (self w) = Some ps → a_results (self w) = Some r →
  disk_error w = None →
  ∃ w' report,
    generate_json_report output_file w = (inr (Some output_file), w')
    ∧ disk w' = disk w ++ [(output_file, report)]
    ∧ let s := rp_summary report in
      let total := length ps in
      total_rules (rp_audit_info report) = total
      ∧ total_rules_analyzed s = total
      ∧ all_all_rules_count s = length (permissive_rules_of ps).1
      ∧ single_all_rules_count s = length (permissive_rules_of ps).2
      ∧ duplicate_groups_count s = length (duplicate_rules_of ps)
      ∧ unused_rules_count s = length (unused_rules_of ps)
      ∧ rules_without_logging s = length (no_logging (logging_of ps))
      ∧ (0 < total →
         ∀ k, ∃ x, summary_percent s k = Binary64.repr x +:+ "%"
                   ∧ is_percent_of (summary_count s k) total x)
      ∧ (total = 0 → ∀ k, summary_percent s k = "0%").
Proof.
  intros Hps Hr Hdisk.
  pose proof (generate_json_report_run w ps r output_file Hps Hr Hdisk) as Hrun.
  cbv zeta in Hrun. eexists _, _. split; [exact Hrun|].
  split; [reflexivity|]. cbv zeta. cbn [rp_summary rp_audit_info total_rules
    total_rules_analyzed all_all_rules_count single_all_rules_count
    duplicate_groups_count unused_rules_count rules_without_logging].
  repeat (split; [reflexivity|]).
  split.
  - intros Ht k.
    destruct (percent_text_spec (kind_count (results_of ps) k) (length ps)
                (kind_count_le ps k)) as [Hpos _].
    destruct k; exact (Hpos Ht).
  - intros Ht k.
    destruct (percent_text_spec (kind_count (results_of ps) k) (length ps)
                (kind_count_le ps k)) as [_ Hzero].
    destruct k; exact (Hzero Ht).
Qed.

Lemma report_percent_fields_witness :
  a_policies (self constructed_world)
    = Some [bare_accept; padded_log; scenario_d]
  ∧ a_results (self constructed_world) = Some empty_results
  ∧ disk_error constructed_world = None
  ∧ ∃ w' report,
      generate_json_report "firewall_audit_report.json" constructed_world
        = (inr (Some "firewall_audit_report.json"), w')
      ∧ disk w' = [("firewall_audit_report.json", report)]
      ∧ unused_rules_count (rp_summary report) = 1
      ∧ unused_rules_percent (rp_summary report) = "33.33%"
      ∧ rules_without_logging (rp_summary report) = 2
      ∧ rules_without_logging_percent (rp_summary report) = "66.67%"
      ∧ duplicate_groups_percent (rp_summary report) = "0.0%"
      ∧ ∃ w0 report0,
          generate_json_report "firewall_audit_report.json" no_rules_world
            = (inr (Some "firewall_audit_report.json"), w0)
          ∧ disk w0 = [("firewall_audit_report.json", report0)]
          ∧ unused_rules_percent (rp_summary report0) = "0%".
Proof.
  split; [reflexivity|]. split; [reflexivity|]. split; [reflexivity|].
  destruct (report_percent_fields no_rules_world [] empty_results
              "firewall_audit_report.json" eq_refl eq_refl eq_refl)
    as (w0 & report0 & Hrun0 & Hdisk0 & _ & _ & _ & _ & _ & _ & _ & _ & Hzero).
  destruct (report_percent_fields constructed_world
              [bare_accept; padded_log; scenario_d] empty_results
              "firewall_audit_report.json" eq_refl eq_refl eq_refl)
    as (w' & report & Hrun & Hdisk & _ & _ & _ & _ & Hd & Hu & Hl & Hpos & _).
  exists w', report. split; [exact Hrun|]. split; [exact Hdisk|].
  assert (length [bare_accept; padded_log; scenario_d] = 3) as H3
    by reflexivity.
  assert (length (unused_rules_of [bare_accept; padded_log; scenario_d]) = 1)
    as Hu1 by (by vm_compute).
  assert (length (no_logging (logging_of [bare_accept; padded_log; scenario_d]))
          = 2) as Hl1 by (by vm_compute).
  assert (length (duplicate_rules_of [bare_accept; padded_log; scenario_d]) = 0)
    as Hd1 by (by vm_compute).
  rewrite H3 in Hpos. rewrite Hu1 in Hu. rewrite Hl1 in Hl. rewrite Hd1 in Hd.
  assert (0 < 3) as Hlt by lia.
  split; [exact Hu|]. split.
  - destruct (Hpos Hlt UnusedRules) as (x & Hf & Hx).
    cbn [summary_count summary_percent] in Hf, Hx. rewrite Hu in Hx.
    by rewrite Hf, (proj1 (percent_thirds x) Hx).
  - split; [exact Hl|]. split.
    + destruct (Hpos Hlt NoLogging) as (x & Hf & Hx).
      cbn [summary_count summary_percent] in Hf, Hx. rewrite Hl in Hx.
      by rewrite Hf, (proj1 (proj2 (percent_thirds x)) Hx).
    + split.
      * destruct (Hpos Hlt DuplicateGroups) as (x & Hf & Hx).
        cbn [summary_count summary_percent] in Hf, Hx. rewrite Hd in Hx.
        by rewrite Hf, (proj2 (proj2 (percent_thirds x)) Hx).
      * exists w0, report0. split; [exact Hrun0|]. split; [exact Hdisk0|].
        exact (Hzero eq_refl UnusedRules).
Defined.
